(** * scrollerDemo: the simulation core of [main.c], embedded and verified

    [main.c] is an SDL2 demo: a starfield of 500 [Star]s, a text scroller
    whose offset [scrollX] wraps around, a raster bar and colour cyclers
    driven by [time_counter], all advanced once per iteration of the
    [while (is_running)] loop of [main].

    The program computes with C [float] (IEEE-754 binary32) and, around
    the calls to [sin], with [double] (binary64).  Both are modelled
    exactly, rounding included.  A finite value of a format is stored as
    the integer number of units it contains, the unit being the smallest
    subnormal of the format ([2^-149] for [float], [2^-1074] for
    [double]); every arithmetic operation is the exact operation followed
    by round-to-nearest, ties-to-even, to the precision of its C type
    (the evaluation method of SSE arithmetic, [FLT_EVAL_METHOD == 0]).
    The values the program reaches stay far below the overflow
    threshold, so infinities and NaN are not represented; a division by
    zero is an error ([None]). *)

From Stdlib Require Import ZArith NArith List Bool Lia Reals Lra Floats.SpecFloat.
Import ListNotations.
Local Open Scope Z_scope.

(** ** IEEE-754 rounding on integers *)

Module IEEE.

(** Nearest integer to [a / b], ties to even ([0 <= a], [0 < b]). *)
Definition rne (a b : Z) : Z :=
  let q := a / b in
  match 2 * (a mod b) ?= b with
  | Lt => q
  | Gt => q + 1
  | Eq => if Z.even q then q else q + 1
  end.

(** Exponent of the unit in the last place of a value of magnitude
    [a / q] units, for a format of [prec] significant bits. *)
Definition ulp_exp (prec a q : Z) : Z :=
  Z.max 0 (Z.log2 (a / q) + 1 - prec).

(** [a / q] units rounded to the format ([0 <= a], [0 < q]): the nearest
    multiple of the ulp. *)
Definition round_pos (prec a q : Z) : Z :=
  let k := ulp_exp prec a q in
  rne a (q * 2 ^ k) * 2 ^ k.

(** [p / q] units rounded to the format ([0 < q]). *)
Definition round_frac (prec p q : Z) : Z :=
  Z.sgn p * round_pos prec (Z.abs p) q.

(** A value is in the format when it is a multiple of its own ulp. *)
Definition formatb (prec n : Z) : bool :=
  n mod 2 ^ ulp_exp prec (Z.abs n) 1 =? 0.

End IEEE.

(** ** C [float]: binary32, in units of [2^-149] *)

Module F32.

Definition prec : Z := 24.
(** The integer that stands for [1.0f]. *)
Definition one : Z := 2 ^ 149.

Definition round (p q : Z) : Z := IEEE.round_frac prec p q.

(** A decimal literal [n/d] with suffix [f]. *)
Definition lit (n d : Z) : Z := round (n * one) d.
(** [(float) n] for an [int] n. *)
Definition of_int (n : Z) : Z := round (n * one) 1.
(** [(int) a]: truncation toward zero. *)
Definition to_int (a : Z) : Z := Z.quot a one.

Definition add (a b : Z) : Z := round (a + b) 1.
Definition sub (a b : Z) : Z := round (a - b) 1.
Definition mul (a b : Z) : Z := round (a * b) one.
(** Division; [None] is a division by zero. *)
Definition div (a b : Z) : option Z :=
  if b =? 0 then None
  else Some (round (Z.sgn b * a * one) (Z.abs b)).

Definition ltb (a b : Z) : bool := a <? b.
Definition leb (a b : Z) : bool := a <=? b.

End F32.

(** ** C [double]: binary64, in units of [2^-1074] *)

Module F64.

Definition prec : Z := 53.
(** The integer that stands for [1.0]. *)
Definition one : Z := 2 ^ 1074.

Definition round (p q : Z) : Z := IEEE.round_frac prec p q.

(** [(double) n] for an [int] n. *)
Definition of_int (n : Z) : Z := round (n * one) 1.
(** Promotion of a [float] operand to [double]: exact, a change of unit. *)
Definition of_float (a : Z) : Z := a * 2 ^ 925.
(** Truncation toward zero, as in [(int) d] and [(Uint8) d]. *)
Definition to_int (a : Z) : Z := Z.quot a one.
(** [(Uint8) d]; the value is the truncation whenever it fits a byte. *)
Definition to_uint8 (a : Z) : Z := to_int a mod 256.

Definition add (a b : Z) : Z := round (a + b) 1.
Definition mul (a b : Z) : Z := round (a * b) one.
Definition div (a b : Z) : option Z :=
  if b =? 0 then None
  else Some (round (Z.sgn b * a * one) (Z.abs b)).

End F64.

(** A small error monad for the computations that divide. *)

Definition bind {A B : Type} (m : option A) (k : A -> option B) : option B :=
  match m with
  | Some a => k a
  | None => None
  end.

Notation "x <- m ;; k" := (bind m (fun x => k))
  (at level 61, m at next level, right associativity).

(** ** [main.c]: constants and data *)

Definition SCREEN_WIDTH : Z := 800.
Definition SCREEN_HEIGHT : Z := 600.
Definition NUM_STARS : nat := 500.
Definition STAR_SPREAD : Z := 512.

Record Star : Type := mkStar { x : Z; y : Z; z : Z; speed : Z }.

Module SDL.
Record Rect : Type := mkRect { x : Z; y : Z; w : Z; h : Z }.
Record Event : Type := mkEvent { type : Z }.
Definition QUIT : Z := 256.  (* SDL_QUIT = 0x100 *)
End SDL.

(** The C library's generator, seeded by [srand(time(NULL))]: the stream of
    the values that the coming calls of [rand()] return.  [rand()] returns
    a non-negative [int], hence [N]. *)
Definition rng : Type := nat -> N.

Definition rand (g : rng) : Z * rng := (Z.of_N (g O), fun i => g (S i)).

(** ** The star field *)

(** One iteration of the loop of [init_stars]. *)
Definition init_star (g : rng) : option (Star * rng) :=
  let (rx, g1) := rand g in
  let (ry, g2) := rand g1 in
  let (rz, g3) := rand g2 in
  let (rs, g4) := rand g3 in
  q <- F32.div (F32.of_int (rs mod 100)) (F32.lit 200 1) ;;
  Some ({| x := F32.sub (F32.of_int (rx mod STAR_SPREAD)) (F32.of_int (STAR_SPREAD / 2));
           y := F32.sub (F32.of_int (ry mod STAR_SPREAD)) (F32.of_int (STAR_SPREAD / 2));
           z := F32.of_int (rz mod STAR_SPREAD);
           speed := F32.add q (F32.lit 2 10) |}, g4).

Fixpoint init_stars_loop (n : nat) (g : rng) : option (list Star * rng) :=
  match n with
  | O => Some ([], g)
  | S n' =>
      sg <- init_star g ;;
      rest <- init_stars_loop n' (snd sg) ;;
      Some (fst sg :: fst rest, snd rest)
  end.

Definition init_stars (g : rng) : option (list Star * rng) :=
  init_stars_loop NUM_STARS g.

(** One iteration of the loop of [update_stars]. *)
Definition update_star (s : Star) (g : rng) : Star * rng :=
  let z1 := F32.sub (z s) (speed s) in
  if F32.leb z1 (F32.of_int 0) then
    let (rx, g1) := rand g in
    let (ry, g2) := rand g1 in
    ({| x := F32.sub (F32.of_int (rx mod STAR_SPREAD)) (F32.of_int (STAR_SPREAD / 2));
        y := F32.sub (F32.of_int (ry mod STAR_SPREAD)) (F32.of_int (STAR_SPREAD / 2));
        z := F32.of_int STAR_SPREAD;
        speed := speed s |}, g2)
  else ({| x := x s; y := y s; z := z1; speed := speed s |}, g).

Fixpoint update_stars (stars : list Star) (g : rng) : list Star * rng :=
  match stars with
  | [] => ([], g)
  | s :: rest =>
      let (s', g1) := update_star s g in
      let (rest', g2) := update_stars rest g1 in
      (s' :: rest', g2)
  end.

(** [float size = (1.0f - (stars[i].z / STAR_SPREAD)) * 3;] *)
Definition star_size (zs : Z) : option Z :=
  q <- F32.div zs (F32.of_int STAR_SPREAD) ;;
  Some (F32.mul (F32.sub (F32.lit 1 1) q) (F32.of_int 3)).

(** The body of the loop of [render_stars]: the rectangles it fills for
    one star. *)
Definition render_star (s : Star) : option (list SDL.Rect) :=
  if F32.ltb (F32.of_int 0) (z s) then
    k <- F32.div (F32.lit 128 1) (z s) ;;
    let px := F32.to_int (F32.add (F32.mul (x s) k) (F32.of_int (SCREEN_WIDTH / 2))) in
    let py := F32.to_int (F32.add (F32.mul (y s) k) (F32.of_int (SCREEN_HEIGHT / 2))) in
    if (0 <=? px) && (px <? SCREEN_WIDTH) && (0 <=? py) && (py <? SCREEN_HEIGHT) then
      size <- star_size (z s) ;;
      Some [ {| SDL.x := px; SDL.y := py;
                SDL.w := F32.to_int size; SDL.h := F32.to_int size |} ]
    else Some []
  else Some [].

Fixpoint render_stars (stars : list Star) : option (list SDL.Rect) :=
  match stars with
  | [] => Some []
  | s :: rest =>
      r <- render_star s ;;
      rs <- render_stars rest ;;
      Some (r ++ rs)
  end.

(** ** The scroller offset and the time counter *)

(** [scrollX -= 1.5f; if (scrollX < -textW) scrollX = SCREEN_WIDTH;] *)
Definition scroll_step (textW : Z) (scrollX : Z) : Z :=
  let sx := F32.sub scrollX (F32.lit 15 10) in
  if F32.ltb sx (F32.of_int (- textW)) then F32.of_int SCREEN_WIDTH else sx.

(** [time_counter += 0.05f;] *)
Definition time_step (t : Z) : Z := F32.add t (F32.lit 5 100).

(** ** Colour cyclers, raster bar and scroller placement *)

(** The arithmetic around a value [v] of [sin], in [double]:
    [(v + 1.0f) / 2.0f]. *)
Definition wave_of (v : Z) : option Z :=
  F64.div (F64.add v (F64.of_float (F32.lit 1 1))) (F64.of_float (F32.lit 2 1)).

(** [(Uint8)((v + 1.0f) / 2.0f * 255)] *)
Definition cycle_of (v : Z) : option Z :=
  hlf <- wave_of v ;;
  Some (F64.to_uint8 (F64.mul hlf (F64.of_int 255))).

(** [sin] is the C library's, on [double]; it is a parameter here. *)

Section Render.

Variable c_sin : Z -> Z.

(** [(Uint8)((sin(a) + 1.0f) / 2.0f * 255)] for a [float] expression
    [a], which is promoted to [double] for the call. *)
Definition cycle (a : Z) : option Z := cycle_of (c_sin (F64.of_float a)).

Record Bar : Type := mkBar { bar_r : Z; bar_g : Z; bar_b : Z; bar_rect : SDL.Rect }.

Definition render_raster_bar (time_counter : Z) : option Bar :=
  r <- cycle (F32.mul time_counter (F32.lit 8 10)) ;;
  g <- cycle (F32.add (F32.mul time_counter (F32.lit 8 10)) (F32.lit 2 1)) ;;
  b <- cycle (F32.add (F32.mul time_counter (F32.lit 8 10)) (F32.lit 4 1)) ;;
  let bar_h := SCREEN_HEIGHT / 8 in
  hlf <- wave_of (c_sin (F64.of_float time_counter)) ;;
  let bar_y := F64.to_int (F64.mul hlf (F64.of_int (SCREEN_HEIGHT - bar_h))) in
  Some {| bar_r := r; bar_g := g; bar_b := b;
          bar_rect := {| SDL.x := 0; SDL.y := bar_y; SDL.w := SCREEN_WIDTH; SDL.h := bar_h |} |}.

Record Scroller : Type :=
  mkScroller { mod_r : Z; mod_g : Z; mod_b : Z; destRect : SDL.Rect }.

Definition render_scroller (scrollX time_counter textWidth textHeight : Z)
  : option Scroller :=
  r <- cycle time_counter ;;
  g <- cycle (F32.add time_counter (F32.lit 2 1)) ;;
  b <- cycle (F32.add time_counter (F32.lit 4 1)) ;;
  let wave := F64.mul (c_sin (F64.of_float (F32.mul time_counter (F32.lit 2 1))))
                      (F64.of_int (SCREEN_HEIGHT / 20)) in
  let dy := F64.to_int
              (F64.add (F64.of_int (SCREEN_HEIGHT / 2 - Z.quot textHeight 2)) wave) in
  Some {| mod_r := r; mod_g := g; mod_b := b;
          destRect := {| SDL.x := F32.to_int scrollX; SDL.y := dy;
                         SDL.w := textWidth; SDL.h := textHeight |} |}.

End Render.

(** ** The main loop *)

Record App : Type := mkApp {
  stars : list Star;
  rand_state : rng;
  scrollX : Z;
  time_counter : Z;
  is_running : Z
}.

(** The inner [while (SDL_PollEvent(&e) != 0)] loop over the events that
    are pending when the iteration starts. *)
Fixpoint poll_events (pending : list SDL.Event) (running : Z) : Z :=
  match pending with
  | [] => running
  | e :: rest =>
      poll_events rest (if SDL.type e =? SDL.QUIT then 0 else running)
  end.

(** The "Update Game Logic" block. *)
Definition update (textW : Z) (a : App) : App :=
  let (stars', g') := update_stars (stars a) (rand_state a) in
  {| stars := stars';
     rand_state := g';
     scrollX := scroll_step textW (scrollX a);
     time_counter := time_step (time_counter a);
     is_running := is_running a |}.

(** One iteration of [while (is_running)]: events, then the update.  The
    drawing calls that follow read the state and write to the renderer
    only; the frame-rate limiter touches the clock only. *)
Definition tick (textW : Z) (pending : list SDL.Event) (a : App) : App :=
  let a1 := {| stars := stars a;
               rand_state := rand_state a;
               scrollX := scrollX a;
               time_counter := time_counter a;
               is_running := poll_events pending (is_running a) |} in
  update textW a1.

(** [while (is_running) { ... }], given the events pending at each of the
    coming iterations. *)
Fixpoint main_loop (textW : Z) (input : list (list SDL.Event)) (a : App) : App :=
  match input with
  | [] => a
  | pending :: rest =>
      if is_running a =? 0 then a
      else main_loop textW rest (tick textW pending a)
  end.

(** The state with which [main] enters the loop. *)
Definition main_init (g : rng) : option App :=
  sg <- init_stars g ;;
  Some {| stars := fst sg;
          rand_state := snd sg;
          scrollX := F32.of_int SCREEN_WIDTH;
          time_counter := F32.of_int 0;
          is_running := 1 |}.

(** ** Vocabulary of the properties *)

(** [n] successive calls of [update_stars]. *)
Fixpoint update_stars_n (n : nat) (stars : list Star) (g : rng) : list Star * rng :=
  match n with
  | O => (stars, g)
  | S n' =>
      let (stars', g') := update_stars stars g in
      update_stars_n n' stars' g'
  end.

(** The depth lies in the half-open interval (0, STAR_SPREAD]. *)
Definition z_in_range (s : Star) : Prop :=
  0 < z s <= F32.of_int STAR_SPREAD.

(** The speed lies in [0.2, 0.695] (as exact rationals). *)
Definition speed_in_range (s : Star) : Prop :=
  F32.one <= 5 * speed s /\ 1000 * speed s <= 695 * F32.one.

(** What holds of every star between two calls of [update_stars]. *)
Definition star_inv (s : Star) : Prop :=
  0 <= z s <= F32.of_int STAR_SPREAD /\ speed_in_range s.

(** The star that the respawn branch of [update_stars] writes: depth
    [STAR_SPREAD], [x] and [y] from the next two values of [rand()]. *)
Definition respawn (s : Star) (g : rng) : Star :=
  {| x := F32.sub (F32.of_int (Z.of_N (g 0%nat) mod STAR_SPREAD))
                  (F32.of_int (STAR_SPREAD / 2));
     y := F32.sub (F32.of_int (Z.of_N (g 1%nat) mod STAR_SPREAD))
                  (F32.of_int (STAR_SPREAD / 2));
     z := F32.of_int STAR_SPREAD;
     speed := speed s |}.

(** One call of [update_stars] seen from one star: the subtraction made
    [z] smaller, and the star either keeps that depth or was respawned. *)
Definition advanced (s s' : Star) : Prop :=
  speed s' = speed s /\
  F32.sub (z s) (speed s) < z s /\
  ((0 < F32.sub (z s) (speed s) /\ z s' = F32.sub (z s) (speed s))
   \/ (F32.sub (z s) (speed s) <= 0 /\ z s' = F32.of_int STAR_SPREAD)).

(** The integer that stands for [0.5f]. *)
Definition half : Z := 2 ^ 148.

(** What holds of the scroll offset between ticks: it is a multiple of
    [0.5] between [-textW] and [SCREEN_WIDTH]. *)
Definition scroll_inv (textW x : Z) : Prop :=
  exists h, x = h * half /\ - (2 * textW) <= h <= 1600.

(** ** Concrete instances of the parameters

    Used to evaluate the program on explicit inputs. *)

(** A generator: the outputs of the sample implementation of [rand] in
    the C standard (ISO C, 7.22.2) with a 32-bit state, seeded with 1;
    its first 4096 values, repeated. *)
Fixpoint lcg_outputs (n : nat) (state : N) : list N :=
  match n with
  | O => []
  | S n' =>
      let state' := ((state * 1103515245 + 12345) mod 4294967296)%N in
      ((state' / 65536) mod 32768)%N :: lcg_outputs n' state'
  end.

Definition lcg_table : list N := Eval vm_compute in lcg_outputs 4096 1%N.

Definition lcg : rng := fun i => nth (i mod 4096) lcg_table 0%N.

(** The same generator, except that its third value is a multiple of
    [STAR_SPREAD]. *)
Definition rng_zero_depth : rng :=
  fun i => match i with 2%nat => 1024%N | _ => lcg i end.

(** A sine: the Taylor polynomial of degree 81 evaluated in fixed point
    with 192 fractional bits, then rounded to [double] and kept within
    [-1, 1].  At the arguments 0, 2 and 4 it is within [10^-5] of the
    sine of the reals ([SineFacts.sine_accurate]). *)
Fixpoint sine_terms (n : nat) (k : Z) (x2 term acc : Z) : Z :=
  match n with
  | O => acc
  | S n' =>
      let term' := - (term * x2 / 2 ^ 192) / ((2 * k) * (2 * k + 1)) in
      sine_terms n' (k + 1) x2 term' (acc + term')
  end.

Definition sine (a : Z) : Z :=
  let xf := a / 2 ^ (1074 - 192) in
  let s := sine_terms 40 1 (xf * xf / 2 ^ 192) xf xf in
  Z.max (- F64.one) (Z.min F64.one (F64.round (s * 2 ^ (1074 - 192)) 1)).

Definition quit_event : SDL.Event := {| SDL.type := SDL.QUIT |}.

(** ** The sine of the reals, for the accuracy of [sin]

    What is assumed of the C library's [sin] at an argument is closeness
    to the real sine. *)

(** The real number that a [double] stands for. *)
Definition to_R (v : Z) : R := (IZR v / IZR F64.one)%R.

(** At the [double] [v], [c_sin] is within [10^-5] of the sine. *)
Definition accurate_at (c_sin : Z -> Z) (v : Z) : Prop :=
  (Rabs (to_R (c_sin v) - sin (to_R v)) <= 1 / 100000)%R.

(** Factorial, in [Z]. *)
Fixpoint zfact (n : nat) : Z :=
  match n with
  | O => 1
  | S n' => Z.of_nat n * zfact n'
  end.

(** Numerator, over [(2n+1)!], of the partial sum of degree [2n+1] of
    the sine series at the integer [p]. *)
Fixpoint sin_num (p : Z) (n : nat) : Z :=
  match n with
  | O => p
  | S n' =>
      sin_num p n' * (Z.of_nat (2 * n) * Z.of_nat (2 * n + 1))
      + (-1) ^ Z.of_nat n * p ^ Z.of_nat (2 * n + 1)
  end.

(** A running state: 500 stars at depth 100, the offset and the time
    counter as [main] initialises them. *)
Definition sample_app : App :=
  {| stars := repeat {| x := F32.of_int 10; y := F32.of_int (- 20);
                        z := F32.of_int 100; speed := F32.lit 2 10 |} NUM_STARS;
     rand_state := lcg;
     scrollX := F32.of_int SCREEN_WIDTH;
     time_counter := F32.of_int 0;
     is_running := 1 |}.

(** ** Vocabulary of the further properties *)

(** The depth of one star after [n] calls of [update_stars], from its
    depth [z0] and its speed [sp]: the [z] part of the loop body. *)
Fixpoint depth_run (n : nat) (z0 sp : Z) : Z :=
  match n with
  | O => z0
  | S n' =>
      let z1 := F32.sub (depth_run n' z0 sp) sp in
      if F32.leb z1 (F32.of_int 0) then F32.of_int STAR_SPREAD else z1
  end.

(** The stars that the next call of [update_stars] respawns. *)
Definition respawning (s : Star) : bool :=
  F32.leb (F32.sub (z s) (speed s)) (F32.of_int 0).

Definition respawns (l : list Star) : nat := length (filter respawning l).

(** A star at depth [STAR_SPREAD] with the smallest speed, [0.2f]. *)
Definition far_star : Star :=
  {| x := 0; y := 0; z := F32.of_int STAR_SPREAD; speed := F32.lit 2 10 |}.

(** [x] and [y] are whole numbers between -256 and 255. *)
Definition xy_in_range (s : Star) : Prop :=
  exists i j, x s = i * F32.one /\ y s = j * F32.one
              /\ - 256 <= i <= 255 /\ - 256 <= j <= 255.

(** A rectangle of [render_stars]: square, at most 3 pixels wide, with
    its corner on the screen. *)
Definition rect_on_screen (r : SDL.Rect) : Prop :=
  0 <= SDL.x r < SCREEN_WIDTH /\ 0 <= SDL.y r < SCREEN_HEIGHT
  /\ SDL.w r = SDL.h r /\ 0 <= SDL.w r <= 3.

(** Whether an [SDL_QUIT] is among the pending events. *)
Definition has_quit (pending : list SDL.Event) : bool :=
  existsb (fun e => SDL.type e =? SDL.QUIT) pending.

(** ** The frame-rate limiter

    [Uint32] is [unsigned int]: differences are taken modulo [2^32]. *)

Definition Uint32 (n : Z) : Z := n mod 2 ^ 32.

(** [if (current_tick - last_tick < 16) SDL_Delay(16 - (current_tick - last_tick));
    last_tick = current_tick;]: the argument of [SDL_Delay] when it is
    called, and the new [last_tick]. *)
Definition limit_frame (current_tick last_tick : Z) : option Z * Z :=
  let elapsed := Uint32 (current_tick - last_tick) in
  (if elapsed <? 16 then Some (Uint32 (16 - elapsed)) else None, current_tick).

(** The clock in milliseconds since [SDL_Init], of which [SDL_GetTicks]
    returns the low 32 bits, together with [last_tick]. *)
Record Timer : Type := mkTimer { clock : Z; last_tick : Z }.

(** One iteration of the loop as the clock sees it: events, update and
    drawing take [work] ms, then [SDL_GetTicks] is read, and
    [SDL_Delay(ms)], when called, returns after [ms + over] ms. *)
Definition frame_time (work over : Z) (t : Timer) : Timer :=
  let read := clock t + work in
  let (d, lt) := limit_frame (Uint32 read) (last_tick t) in
  {| clock := match d with Some ms => read + ms + over | None => read end;
     last_tick := lt |}.

(** ** Start-up and shutdown

    The calls by which [main] and the functions it calls acquire and
    release what the program holds, start the music, print and pause, in
    the order in which they are made.  The drawing calls of the loop and
    the reading of the clock are modelled above and are not listed. *)

Inductive Call : Type :=
| SDL_Init | SDL_CreateWindow | SDL_CreateRenderer
| TTF_Init | TTF_OpenFont
| Mix_OpenAudio | Mix_LoadMUS | Mix_PlayMusic (loops : Z)
| TTF_RenderText_Blended | SDL_CreateTextureFromSurface | SDL_FreeSurface
| SDL_DestroyTexture
| Mix_FreeMusic | TTF_CloseFont | SDL_DestroyRenderer | SDL_DestroyWindow
| Mix_Quit | TTF_Quit | SDL_Quit
| SDL_Delay (ms : Z)
| printf.

(** What the platform answers: which of the calls that can fail succeed,
    and the size of the rendered text. *)
Record Platform : Type := mkPlatform {
  sdl_init_ok : bool;
  window_ok : bool;
  renderer_ok : bool;
  ttf_init_ok : bool;
  font_ok : bool;
  audio_ok : bool;
  music_ok : bool;
  surface_ok : bool;
  texture_ok : bool;
  surface_w : Z;
  surface_h : Z
}.

(** The four global handles; [true] stands for a pointer that is not
    [NULL]. *)
Record Globals : Type := mkGlobals {
  window : bool;
  renderer : bool;
  font : bool;
  music : bool
}.

(** The globals as the program starts: all [NULL]. *)
Definition no_handles : Globals :=
  {| window := false; renderer := false; font := false; music := false |}.

(** A computation that reads and writes the globals and makes calls. *)
Definition Run (A : Type) : Type := Globals -> A * Globals * list Call.

Definition ret {A : Type} (a : A) : Run A := fun g => (a, g, []).

Definition and_then {A B : Type} (m : Run A) (k : A -> Run B) : Run B :=
  fun g =>
    let '(a, g1, t1) := m g in
    let '(b, g2, t2) := k a g1 in
    (b, g2, t1 ++ t2).

Definition call (c : Call) : Run unit := fun g => (tt, g, [c]).
Definition get : Run Globals := fun g => (g, g, []).
Definition put (g : Globals) : Run unit := fun _ => (tt, g, []).

Declare Scope run_scope.
Delimit Scope run_scope with run.
Notation "x <- m ;; k" := (and_then m (fun x => k))
  (at level 61, m at next level, right associativity) : run_scope.
Notation "m ;; k" := (and_then m (fun _ => k))
  (at level 61, right associativity) : run_scope.

Definition set_window (h : bool) : Run unit :=
  (g <- get ;;
   put {| window := h; renderer := renderer g; font := font g; music := music g |})%run.
Definition set_renderer (h : bool) : Run unit :=
  (g <- get ;;
   put {| window := window g; renderer := h; font := font g; music := music g |})%run.
Definition set_font (h : bool) : Run unit :=
  (g <- get ;;
   put {| window := window g; renderer := renderer g; font := h; music := music g |})%run.
Definition set_music (h : bool) : Run unit :=
  (g <- get ;;
   put {| window := window g; renderer := renderer g; font := font g; music := h |})%run.

Definition init_sdl (p : Platform) : Run Z :=
  (call SDL_Init ;;
   if negb (sdl_init_ok p) then call printf ;; ret 1 else
   call SDL_CreateWindow ;;
   set_window (window_ok p) ;;
   if negb (window_ok p) then call printf ;; ret 1 else
   call SDL_CreateRenderer ;;
   set_renderer (renderer_ok p) ;;
   if negb (renderer_ok p) then call printf ;; ret 1 else
   ret 0)%run.

Definition init_font (p : Platform) : Run Z :=
  (call TTF_Init ;;
   if negb (ttf_init_ok p) then call printf ;; ret 1 else
   call TTF_OpenFont ;;
   set_font (font_ok p) ;;
   if negb (font_ok p) then
     call printf ;; call printf ;; call (SDL_Delay 5000) ;; ret 1
   else ret 0)%run.

Definition init_audio (p : Platform) : Run Z :=
  (call Mix_OpenAudio ;;
   if negb (audio_ok p) then call printf ;; ret 1 else
   call Mix_LoadMUS ;;
   set_music (music_ok p) ;;
   if negb (music_ok p) then
     call printf ;; call printf ;; call (SDL_Delay 5000) ;; ret 1
   else ret 0)%run.

(** The result is whether the texture is not [NULL], and what was written
    to [*w] and [*h], if anything. *)
Definition create_text_texture (p : Platform) : Run (bool * option (Z * Z)) :=
  (call TTF_RenderText_Blended ;;
   if negb (surface_ok p) then call printf ;; ret (false, None) else
   call SDL_CreateTextureFromSurface ;;
   (if negb (texture_ok p) then call printf else ret tt) ;;
   call SDL_FreeSurface ;;
   ret (texture_ok p, Some (surface_w p, surface_h p)))%run.

Definition cleanup : Run unit :=
  (g <- get ;;
   (if music g then call Mix_FreeMusic else ret tt) ;;
   (if font g then call TTF_CloseFont else ret tt) ;;
   (if renderer g then call SDL_DestroyRenderer else ret tt) ;;
   (if window g then call SDL_DestroyWindow else ret tt) ;;
   put no_handles ;;
   call Mix_Quit ;;
   call TTF_Quit ;;
   call SDL_Quit)%run.

(** How [main] ends on the iterations given: with an exit code, or still
    in the loop when they are used up. *)
Inductive Outcome : Type :=
| Exit (code : Z)
| Looping (a : App)
| Undefined.

(** [main], for the generator [g] as [srand] leaves it and the events
    pending at each iteration. *)
Definition main (p : Platform) (g : rng) (input : list (list SDL.Event))
  : Run Outcome :=
  (r <- init_sdl p ;;
   if negb (r =? 0) then ret (Exit 1) else
   r <- init_font p ;;
   if negb (r =? 0) then ret (Exit 1) else
   r <- init_audio p ;;
   if negb (r =? 0) then ret (Exit 1) else
   call (Mix_PlayMusic (- 1)) ;;
   started <- ret (main_init g) ;;
   match started with
   | None => ret Undefined
   | Some a0 =>
       tex <- create_text_texture p ;;
       if negb (fst tex) then cleanup ;; ret (Exit 1) else
       let textW := match snd tex with Some (w, _) => w | None => 0 end in
       let a := main_loop textW input a0 in
       if is_running a =? 0 then
         call SDL_DestroyTexture ;; cleanup ;; ret (Exit 0)
       else ret (Looping a)
   end)%run.

(** Vocabulary of the start-up and shutdown properties. *)

Definition init_ok (p : Platform) : bool :=
  sdl_init_ok p && window_ok p && renderer_ok p && ttf_init_ok p && font_ok p
  && audio_ok p && music_ok p.

Definition text_ok (p : Platform) : bool := surface_ok p && texture_ok p.

(** The calls that give something back. *)
Definition releases (c : Call) : bool :=
  match c with
  | SDL_FreeSurface | SDL_DestroyTexture
  | Mix_FreeMusic | TTF_CloseFont | SDL_DestroyRenderer | SDL_DestroyWindow
  | Mix_Quit | TTF_Quit | SDL_Quit => true
  | _ => false
  end.


Definition Call_eqb (c d : Call) : bool :=
  match c, d with
  | SDL_Init, SDL_Init | SDL_CreateWindow, SDL_CreateWindow
  | SDL_CreateRenderer, SDL_CreateRenderer | TTF_Init, TTF_Init
  | TTF_OpenFont, TTF_OpenFont | Mix_OpenAudio, Mix_OpenAudio
  | Mix_LoadMUS, Mix_LoadMUS
  | TTF_RenderText_Blended, TTF_RenderText_Blended
  | SDL_CreateTextureFromSurface, SDL_CreateTextureFromSurface
  | SDL_FreeSurface, SDL_FreeSurface | SDL_DestroyTexture, SDL_DestroyTexture
  | Mix_FreeMusic, Mix_FreeMusic | TTF_CloseFont, TTF_CloseFont
  | SDL_DestroyRenderer, SDL_DestroyRenderer
  | SDL_DestroyWindow, SDL_DestroyWindow
  | Mix_Quit, Mix_Quit | TTF_Quit, TTF_Quit | SDL_Quit, SDL_Quit
  | printf, printf => true
  | Mix_PlayMusic a, Mix_PlayMusic b | SDL_Delay a, SDL_Delay b => a =? b
  | _, _ => false
  end.

(** How often the call [c] is made in a trace. *)
Definition calls (c : Call) (tr : list Call) : nat :=
  length (filter (Call_eqb c) tr).


(** The calls of [cleanup] when all four handles are held. *)
Definition shutdown : list Call :=
  [Mix_FreeMusic; TTF_CloseFont; SDL_DestroyRenderer; SDL_DestroyWindow;
   Mix_Quit; TTF_Quit; SDL_Quit].

(** A platform on which the font file cannot be loaded. *)
Definition no_font_platform : Platform :=
  {| sdl_init_ok := true; window_ok := true; renderer_ok := true;
     ttf_init_ok := true; font_ok := false; audio_ok := true; music_ok := true;
     surface_ok := true; texture_ok := true; surface_w := 400; surface_h := 28 |}.

(** A platform on which the text cannot be made into a texture. *)
Definition no_texture_platform : Platform :=
  {| sdl_init_ok := true; window_ok := true; renderer_ok := true;
     ttf_init_ok := true; font_ok := true; audio_ok := true; music_ok := true;
     surface_ok := true; texture_ok := false; surface_w := 400; surface_h := 28 |}.

(** ** The Standard Library's IEEE-754, for comparison

    [SpecFloat] is the Standard Library's executable specification of
    IEEE-754 arithmetic; [units] reads one of its finite values in units
    of [2^-unit_exp]. *)

Module SpecCheck.

Definition units (unit_exp : Z) (f : spec_float) : option Z :=
  match f with
  | S754_zero _ => Some 0
  | S754_finite s m e =>
      let v := Z.pos m * 2 ^ (e + unit_exp) in Some (if s then - v else v)
  | _ => None
  end.

Definition f32 (m e : Z) : spec_float := binary_normalize 24 128 m e false.
Definition f64 (m e : Z) : spec_float := binary_normalize 53 1024 m e false.

Definition same (f : spec_float) (v : Z) : bool :=
  match units 149 f with
  | Some u => u =? v
  | None => false
  end.

(** [x], [x - step], [x - 2 step], ...: do the two subtractions agree on
    the first [n] steps? *)
Fixpoint sub_chains_agree (n : nat) (fx fstep : spec_float) (x step : Z) : bool :=
  same fx x &&
  match n with
  | O => true
  | S n' => sub_chains_agree n' (SFsub 24 128 fx fstep) fstep (F32.sub x step) step
  end.

(** [(float)(r) / 200.0f + 0.2f] in [SpecFloat] *)
Definition spec_speed (r : Z) : spec_float :=
  SFadd 24 128 (SFdiv 24 128 (f32 r 0) (f32 200 0)) (SFdiv 24 128 (f32 2 0) (f32 10 0)).

Definition model_speed (r : Z) : Z :=
  match F32.div (F32.of_int r) (F32.lit 200 1) with
  | Some q => F32.add q (F32.lit 2 10)
  | None => 0
  end.

End SpecCheck.

(** * Facts about the arithmetic *)

Lemma Some_inj {A : Type} (a b : A) : Some a = Some b -> a = b.
Proof. intros H. congruence. Qed.

Module IEEEFacts.
Import IEEE.

(** *** Rounding a fraction to the nearest integer *)

Lemma rne_bounds a b :
  0 < b -> (2 * rne a b - 1) * b <= 2 * a <= (2 * rne a b + 1) * b.
Proof.
  intros Hb. unfold rne.
  pose proof (Z.div_mod a b ltac:(lia)) as E.
  pose proof (Z.mod_pos_bound a b Hb) as M.
  destruct (Z.compare_spec (2 * (a mod b)) b);
    [destruct (Z.even (a / b)) | | ]; nia.
Qed.

Lemma rne_tie_even a b :
  0 < b ->
  2 * a = (2 * rne a b - 1) * b \/ 2 * a = (2 * rne a b + 1) * b ->
  Z.even (rne a b) = true.
Proof.
  intros Hb. unfold rne.
  pose proof (Z.div_mod a b ltac:(lia)) as E.
  pose proof (Z.mod_pos_bound a b Hb) as M.
  destruct (Z.compare_spec (2 * (a mod b)) b) as [C|C|C].
  - destruct (Z.even (a / b)) eqn:Ev; intros [T|T].
    + exfalso; nia.
    + exact Ev.
    + rewrite Z.even_add, Ev. reflexivity.
    + exfalso; nia.
  - intros [T|T]; exfalso; nia.
  - intros [T|T]; exfalso; nia.
Qed.

Lemma rne_nonneg a b : 0 <= a -> 0 < b -> 0 <= rne a b.
Proof. intros Ha Hb. pose proof (rne_bounds a b Hb). nia. Qed.

Lemma rne_exact n b : 0 < b -> rne (n * b) b = n.
Proof.
  intros Hb. unfold rne.
  rewrite Z.mod_mul, Z.div_mul by lia.
  assert (E : (2 * 0 ?= b) = Lt) by (apply Z.compare_lt_iff; lia).
  rewrite E. reflexivity.
Qed.

Lemma rne_mono a1 b1 a2 b2 :
  0 <= a1 -> 0 < b1 -> 0 <= a2 -> 0 < b2 ->
  a1 * b2 <= a2 * b1 -> rne a1 b1 <= rne a2 b2.
Proof.
  intros Ha1 Hb1 Ha2 Hb2 Hle.
  pose proof (rne_bounds a1 b1 Hb1) as [L1 _].
  pose proof (rne_bounds a2 b2 Hb2) as [_ U2].
  destruct (Z_le_gt_dec (rne a1 b1) (rne a2 b2)) as [|Hgt]; [assumption|exfalso].
  assert (Hc : (2 * rne a1 b1 - 1) * (b1 * b2) <= (2 * rne a2 b2 + 1) * (b1 * b2)).
  { apply Z.le_trans with (2 * a1 * b2); [nia|].
    apply Z.le_trans with (2 * a2 * b1); nia. }
  assert (Hn : rne a1 b1 = rne a2 b2 + 1) by nia.
  assert (T1 : 2 * a1 = (2 * rne a1 b1 - 1) * b1) by nia.
  assert (T2 : 2 * a2 = (2 * rne a2 b2 + 1) * b2) by nia.
  pose proof (rne_tie_even a1 b1 Hb1 (or_introl T1)) as E1.
  pose proof (rne_tie_even a2 b2 Hb2 (or_intror T2)) as E2.
  rewrite Hn, Z.even_add, E2 in E1. discriminate.
Qed.

Lemma rne_ge n a b : 0 <= n -> 0 <= a -> 0 < b -> n * b <= a -> n <= rne a b.
Proof.
  intros Hn Ha Hb H. rewrite <- (rne_exact n b Hb) at 1.
  apply rne_mono; nia.
Qed.

Lemma rne_le n a b : 0 <= a -> 0 < b -> a <= n * b -> rne a b <= n.
Proof.
  intros Ha Hb H. rewrite <- (rne_exact n b Hb).
  apply rne_mono; nia.
Qed.

(** *** Rounding to a format *)

Lemma div_frac_mono a1 q1 a2 q2 :
  0 < q1 -> 0 < q2 -> a1 * q2 <= a2 * q1 -> a1 / q1 <= a2 / q2.
Proof.
  intros H1 H2 H.
  apply Z.div_le_lower_bound; [assumption|].
  pose proof (Z.mul_div_le a1 q1 H1). nia.
Qed.

Lemma div_lt_pow a q m : 0 < q -> a / q < m -> a < m * q.
Proof.
  intros Hq H.
  pose proof (Z.div_mod a q ltac:(lia)).
  pose proof (Z.mod_pos_bound a q Hq). nia.
Qed.

Lemma log2_lt_pow n : 0 <= n -> n < 2 ^ (Z.log2 n + 1).
Proof.
  intros Hn. destruct (Z.eq_dec n 0) as [->|Hz].
  - simpl. lia.
  - pose proof (Z.log2_spec n ltac:(lia)) as [_ H].
    now rewrite <- Z.add_1_r in H.
Qed.

Section Format.

Variable prec : Z.
Hypothesis Hprec : 0 < prec.

Let ulp := ulp_exp prec.
Let rnd := round_frac prec.
Let rpos := round_pos prec.

Lemma ulp_nonneg a q : 0 <= ulp a q.
Proof using Hprec. unfold ulp, ulp_exp. lia. Qed.

Lemma round_frac_rpos p q : rnd p q = Z.sgn p * rpos (Z.abs p) q.
Proof. reflexivity. Qed.

Lemma rpos_eq a q : rpos a q = rne a (q * 2 ^ ulp a q) * 2 ^ ulp a q.
Proof. reflexivity. Qed.

Lemma rpos_nonneg a q : 0 <= a -> 0 < q -> 0 <= rpos a q.
Proof using Hprec.
  intros Ha Hq. rewrite !rpos_eq.
  pose proof (ulp_nonneg a q) as K.
  assert (0 < 2 ^ ulp a q) by (apply Z.pow_pos_nonneg; lia).
  pose proof (rne_nonneg a (q * 2 ^ ulp a q) Ha ltac:(nia)). nia.
Qed.

Lemma ulp_mono a1 q1 a2 q2 :
  0 <= a1 -> 0 < q1 -> 0 < q2 -> a1 * q2 <= a2 * q1 -> ulp a1 q1 <= ulp a2 q2.
Proof.
  intros Ha1 H1 H2 H. unfold ulp, ulp_exp.
  pose proof (div_frac_mono _ _ _ _ H1 H2 H) as D.
  pose proof (Z.log2_le_mono _ _ D). lia.
Qed.

(** Up to the next power of two above the value. *)
Lemma rpos_le_pow a q m :
  0 <= a -> 0 < q -> ulp a q <= m -> a <= 2 ^ m * q -> rpos a q <= 2 ^ m.
Proof using Hprec.
  intros Ha Hq Hm Hle. rewrite !rpos_eq.
  pose proof (ulp_nonneg a q) as K.
  set (k := ulp a q) in *.
  assert (P : 0 < 2 ^ k) by (apply Z.pow_pos_nonneg; lia).
  assert (E : 2 ^ m = 2 ^ (m - k) * 2 ^ k).
  { rewrite <- Z.pow_add_r by lia. f_equal. lia. }
  assert (R : rne a (q * 2 ^ k) <= 2 ^ (m - k)).
  { apply rne_le; [assumption|nia|]. rewrite E in Hle. nia. }
  rewrite E. nia.
Qed.

(** Down to the power of two below the value. *)
Lemma rpos_ge_pow a q m :
  0 <= a -> 0 < q -> ulp a q <= m -> 2 ^ m * q <= a -> 2 ^ m <= rpos a q.
Proof using Hprec.
  intros Ha Hq Hm Hle. rewrite !rpos_eq.
  pose proof (ulp_nonneg a q) as K.
  set (k := ulp a q) in *.
  assert (P : 0 < 2 ^ k) by (apply Z.pow_pos_nonneg; lia).
  assert (E : 2 ^ m = 2 ^ (m - k) * 2 ^ k).
  { rewrite <- Z.pow_add_r by lia. f_equal. lia. }
  assert (Q : 0 <= 2 ^ (m - k)) by (apply Z.pow_nonneg; lia).
  assert (R : 2 ^ (m - k) <= rne a (q * 2 ^ k)).
  { apply rne_ge; [assumption|assumption|nia|]. rewrite E in Hle. nia. }
  rewrite E. nia.
Qed.

Lemma rpos_mono a1 q1 a2 q2 :
  0 <= a1 -> 0 < q1 -> 0 <= a2 -> 0 < q2 ->
  a1 * q2 <= a2 * q1 -> rpos a1 q1 <= rpos a2 q2.
Proof using Hprec.
  intros Ha1 H1 Ha2 H2 H.
  pose proof (ulp_mono _ _ _ _ Ha1 H1 H2 H) as KK.
  pose proof (ulp_nonneg a1 q1) as K1.
  destruct (Z.eq_dec (ulp a1 q1) (ulp a2 q2)) as [E|NE].
  - rewrite !rpos_eq. rewrite <- E.
    assert (P : 0 < 2 ^ ulp a1 q1) by (apply Z.pow_pos_nonneg; lia).
    assert (rne a1 (q1 * 2 ^ ulp a1 q1) <= rne a2 (q2 * 2 ^ ulp a1 q1)).
    { apply rne_mono; nia. }
    nia.
  - (* the second value lies in a higher binade *)
    assert (D2 : 0 <= a2 / q2) by (apply Z.div_pos; lia).
    assert (D1 : 0 <= a1 / q1) by (apply Z.div_pos; lia).
    set (L1 := Z.log2 (a1 / q1)). set (L2 := Z.log2 (a2 / q2)).
    assert (K2 : ulp a2 q2 = L2 + 1 - prec /\ 0 < L2 + 1 - prec).
    { unfold ulp, ulp_exp in *. fold L2. fold L1 in KK, NE. lia. }
    destruct K2 as [K2 K2'].
    assert (HL : L1 + 1 <= L2 /\ ulp a1 q1 <= L2).
    { unfold ulp, ulp_exp in *. fold L2 in K2. fold L1 in KK, NE, K1 |- *. lia. }
    destruct HL as [HL HK].
    assert (N2 : 0 < a2 / q2).
    { destruct (Z.eq_dec (a2 / q2) 0) as [Z0|]; [|lia].
      exfalso. unfold L2 in K2'. rewrite Z0 in K2'.
      change (Z.log2 0) with 0 in K2'. lia. }
    pose proof (Z.log2_spec _ N2) as [S2 _]. fold L2 in S2.
    pose proof (Z.mul_div_le a2 q2 H2) as M2.
    pose proof (log2_lt_pow _ D1) as S1. fold L1 in S1.
    pose proof (div_lt_pow _ _ _ H1 S1) as M1.
    set (M := Z.max (L1 + 1) (ulp a1 q1)).
    assert (PM : 2 ^ (L1 + 1) <= 2 ^ M) by (apply Z.pow_le_mono_r; lia).
    apply Z.le_trans with (2 ^ M).
    + apply rpos_le_pow; try lia. nia.
    + apply Z.le_trans with (2 ^ L2).
      * apply Z.pow_le_mono_r; lia.
      * apply rpos_ge_pow; try lia. nia.
Qed.

(** Rounding is monotone. *)
Lemma round_frac_mono p1 q1 p2 q2 :
  0 < q1 -> 0 < q2 -> p1 * q2 <= p2 * q1 -> rnd p1 q1 <= rnd p2 q2.
Proof using Hprec.
  intros H1 H2 H. rewrite !round_frac_rpos.
  pose proof (rpos_nonneg (Z.abs p1) q1 (Z.abs_nonneg _) H1).
  pose proof (rpos_nonneg (Z.abs p2) q2 (Z.abs_nonneg _) H2).
  destruct (Z.sgn_spec p1) as [[S1 ->]|[[S1 ->]|[S1 ->]]];
  destruct (Z.sgn_spec p2) as [[S2 ->]|[[S2 ->]|[S2 ->]]]; try nia.
  - assert (rpos (Z.abs p1) q1 <= rpos (Z.abs p2) q2);
      [apply rpos_mono; lia || nia | nia].
  - assert (rpos (Z.abs p2) q2 <= rpos (Z.abs p1) q1);
      [apply rpos_mono; lia || nia | nia].
Qed.

Lemma round_frac_opp p q : rnd (- p) q = - rnd p q.
Proof.
  rewrite !round_frac_rpos, Z.sgn_opp, Z.abs_opp. lia.
Qed.

Lemma round_frac_0 q : rnd 0 q = 0.
Proof. reflexivity. Qed.

Lemma round_frac_nonneg p q : 0 <= p -> 0 < q -> 0 <= rnd p q.
Proof using Hprec.
  intros Hp Hq. rewrite <- (round_frac_0 1).
  apply round_frac_mono; lia.
Qed.

(** Values of the format are left alone. *)
Lemma round_frac_exact n q :
  formatb prec n = true -> 0 < q -> rnd (n * q) q = n.
Proof using Hprec.
  intros F Hq. unfold formatb in F. apply Z.eqb_eq in F.
  rewrite round_frac_rpos. rewrite !rpos_eq.
  assert (U : ulp (Z.abs (n * q)) q = ulp_exp prec (Z.abs n) 1).
  { unfold ulp, ulp_exp. rewrite Z.abs_mul, (Z.abs_eq q), Z.div_mul, Z.div_1_r by lia.
    reflexivity. }
  rewrite U. set (k := ulp_exp prec (Z.abs n) 1) in *.
  assert (K : 0 <= k) by (unfold k, ulp_exp; lia).
  assert (P : 0 < 2 ^ k) by (apply Z.pow_pos_nonneg; lia).
  apply Z.mod_divide in F; [|lia]. destruct F as [c Hc].
  assert (A : Z.abs (n * q) = Z.abs c * (q * 2 ^ k)).
  { rewrite Hc, !Z.abs_mul, (Z.abs_eq q), (Z.abs_eq (2 ^ k)) by lia. ring. }
  rewrite A, rne_exact by nia.
  rewrite Z.sgn_mul, (Z.sgn_pos q) by lia.
  rewrite Hc at 1. rewrite Z.sgn_mul, (Z.sgn_pos (2 ^ k)) by lia.
  rewrite Hc. pose proof (Z.abs_sgn c). nia.
Qed.

(** The result is at most half an ulp away. *)
Lemma round_frac_error p q :
  0 < q ->
  2 * Z.abs (rnd p q * q - p) <= q * 2 ^ ulp (Z.abs p) q.
Proof using Hprec.
  intros Hq. rewrite round_frac_rpos. rewrite !rpos_eq.
  pose proof (ulp_nonneg (Z.abs p) q) as K.
  set (k := ulp (Z.abs p) q) in *.
  assert (P : 0 < 2 ^ k) by (apply Z.pow_pos_nonneg; lia).
  pose proof (rne_bounds (Z.abs p) (q * 2 ^ k) ltac:(nia)) as [L U].
  destruct (Z.sgn_spec p) as [[S1 ->]|[[S1 ->]|[S1 ->]]]; nia.
Qed.

(** Small multiples of a power of two are in the format. *)
Lemma formatb_small h j :
  0 <= j -> Z.abs h < 2 ^ prec -> formatb prec (h * 2 ^ j) = true.
Proof using Hprec.
  intros Hj Hh. unfold formatb. apply Z.eqb_eq.
  destruct (Z.eq_dec h 0) as [->|Hz].
  { rewrite Z.mul_0_l. apply Z.mod_0_l.
    apply Z.pow_nonzero; [lia|]. unfold ulp_exp. lia. }
  assert (P : 0 < 2 ^ j) by (apply Z.pow_pos_nonneg; lia).
  rewrite Z.abs_mul, (Z.abs_eq (2 ^ j)) by lia.
  unfold ulp_exp. rewrite Z.div_1_r, Z.log2_mul_pow2 by lia.
  assert (L : Z.log2 (Z.abs h) < prec).
  { apply Z.log2_lt_pow2; lia. }
  set (k := Z.max 0 (j + Z.log2 (Z.abs h) + 1 - prec)).
  assert (K : 0 <= k <= j) by lia.
  replace j with ((j - k) + k) by lia.
  rewrite Z.pow_add_r, Z.mul_assoc by lia.
  apply Z.mod_mul. apply Z.pow_nonzero; lia.
Qed.

End Format.


End IEEEFacts.

(** *** The two C formats *)

Module F32Facts.
Import IEEE IEEEFacts.

#[local] Abbreviation one := F32.one.

Lemma f32_prec_pos : 0 < F32.prec.
Proof. reflexivity. Qed.

Lemma f32_one_pos : 0 < one.
Proof. unfold F32.one. apply Z.pow_pos_nonneg; lia. Qed.

Lemma f32_round_mono p1 q1 p2 q2 :
  0 < q1 -> 0 < q2 -> p1 * q2 <= p2 * q1 -> F32.round p1 q1 <= F32.round p2 q2.
Proof. apply (round_frac_mono _ f32_prec_pos). Qed.

Lemma f32_round_exact n q :
  formatb F32.prec n = true -> 0 < q -> F32.round (n * q) q = n.
Proof. apply (round_frac_exact _ f32_prec_pos). Qed.

Lemma f32_round_error p q :
  0 < q ->
  2 * Z.abs (F32.round p q * q - p) <= q * 2 ^ ulp_exp F32.prec (Z.abs p) q.
Proof. apply (round_frac_error _ f32_prec_pos). Qed.

Lemma f32_format_small h j :
  0 <= j -> Z.abs h < 2 ^ F32.prec -> formatb F32.prec (h * 2 ^ j) = true.
Proof. apply (formatb_small _ f32_prec_pos). Qed.

Lemma f32_of_int_mono m n : m <= n -> F32.of_int m <= F32.of_int n.
Proof.
  intros H. unfold F32.of_int. apply f32_round_mono; try lia.
  pose proof f32_one_pos. nia.
Qed.

Lemma f32_of_int_0 : F32.of_int 0 = 0.
Proof. reflexivity. Qed.

Lemma f32_of_int_spread : F32.of_int STAR_SPREAD = 512 * one.
Proof. vm_compute. reflexivity. Qed.

Lemma f32_sub_mono a1 b1 a2 b2 : a1 <= a2 -> b2 <= b1 -> F32.sub a1 b1 <= F32.sub a2 b2.
Proof. intros. unfold F32.sub. apply f32_round_mono; lia. Qed.

Lemma f32_add_mono a1 b1 a2 b2 : a1 <= a2 -> b1 <= b2 -> F32.add a1 b1 <= F32.add a2 b2.
Proof. intros. unfold F32.add. apply f32_round_mono; lia. Qed.

Lemma f32_sub_le_of_int a b n : a - b <= n * one -> F32.sub a b <= F32.of_int n.
Proof. intros. unfold F32.sub, F32.of_int. apply f32_round_mono; lia. Qed.

Lemma f32_mul_mono_r a b1 b2 : 0 <= a -> b1 <= b2 -> F32.mul b1 a <= F32.mul b2 a.
Proof.
  intros Ha Hb. unfold F32.mul. apply f32_round_mono; try apply f32_one_pos.
  pose proof f32_one_pos.
  apply Z.mul_le_mono_nonneg_r; [lia|].
  apply Z.mul_le_mono_nonneg_r; lia.
Qed.

Lemma f32_div_total a b : b <> 0 -> exists q, F32.div a b = Some q.
Proof.
  intros Hb. unfold F32.div.
  destruct (Z.eqb_spec b 0); [contradiction|eauto].
Qed.

(** Division by a positive value is monotone in the dividend. *)
Lemma f32_div_mono a1 a2 b q1 q2 :
  0 < b -> a1 <= a2 -> F32.div a1 b = Some q1 -> F32.div a2 b = Some q2 -> q1 <= q2.
Proof.
  intros Hb Ha. unfold F32.div.
  destruct (Z.eqb_spec b 0); [lia|].
  intros [= <-] [= <-].
  rewrite (Z.sgn_pos b), (Z.abs_eq b) by lia.
  apply f32_round_mono; try lia.
  pose proof f32_one_pos.
  apply Z.mul_le_mono_nonneg_r; [lia|].
  apply Z.mul_le_mono_nonneg_r; lia.
Qed.

End F32Facts.

Module F64Facts.
Import IEEE IEEEFacts.

#[local] Abbreviation one := F64.one.

Lemma f64_prec_pos : 0 < F64.prec.
Proof. reflexivity. Qed.

Lemma f64_one_pos : 0 < one.
Proof. unfold F64.one. apply Z.pow_pos_nonneg; lia. Qed.

Lemma f64_round_mono p1 q1 p2 q2 :
  0 < q1 -> 0 < q2 -> p1 * q2 <= p2 * q1 -> F64.round p1 q1 <= F64.round p2 q2.
Proof. apply (round_frac_mono _ f64_prec_pos). Qed.

Lemma f64_add_mono a1 b1 a2 b2 : a1 <= a2 -> b1 <= b2 -> F64.add a1 b1 <= F64.add a2 b2.
Proof. intros. unfold F64.add. apply f64_round_mono; lia. Qed.

Lemma f64_mul_mono_r a b1 b2 : 0 <= a -> b1 <= b2 -> F64.mul b1 a <= F64.mul b2 a.
Proof.
  intros Ha Hb. unfold F64.mul. apply f64_round_mono; try apply f64_one_pos.
  pose proof f64_one_pos.
  apply Z.mul_le_mono_nonneg_r; [lia|].
  apply Z.mul_le_mono_nonneg_r; lia.
Qed.

Lemma f64_div_total a b : b <> 0 -> exists q, F64.div a b = Some q.
Proof.
  intros Hb. unfold F64.div.
  destruct (Z.eqb_spec b 0); [contradiction|eauto].
Qed.

Lemma f64_div_mono a1 a2 b q1 q2 :
  0 < b -> a1 <= a2 -> F64.div a1 b = Some q1 -> F64.div a2 b = Some q2 -> q1 <= q2.
Proof.
  intros Hb Ha. unfold F64.div.
  destruct (Z.eqb_spec b 0); [lia|].
  intros H1 H2. apply Some_inj in H1, H2. subst q1 q2.
  rewrite (Z.sgn_pos b), (Z.abs_eq b) by lia.
  apply f64_round_mono; try lia.
  pose proof f64_one_pos.
  apply Z.mul_le_mono_nonneg_r; [lia|].
  apply Z.mul_le_mono_nonneg_r; lia.
Qed.

Lemma f64_to_int_mono a b : a <= b -> F64.to_int a <= F64.to_int b.
Proof. intros. apply Z.quot_le_mono; [apply f64_one_pos|assumption]. Qed.

End F64Facts.

(** *** Agreement with the Standard Library's IEEE-754

    On sample operands of the program the operations of [F32] and [F64]
    return what [SpecFloat] returns at precision 24 ([float]) and 53
    ([double]). *)

Module Agreement.
Import SpecCheck.

Example float_sub :
  units 149 (SFsub 24 128 (f32 800 0) (f32 3 (-1)))
    = Some (F32.sub (F32.of_int 800) (F32.lit 15 10))
  /\ units 149 (SFsub 24 128 (f32 16777216 0) (f32 3 (-1)))
    = Some (F32.sub (F32.of_int 16777216) (F32.lit 15 10))
  /\ units 149 (SFsub 24 128 (f32 33554432 0) (f32 3 (-1)))
    = Some (F32.sub (F32.of_int 33554432) (F32.lit 15 10))
  /\ units 149 (SFsub 24 128 (f32 385 0) (SFdiv 24 128 (f32 11 0) (f32 40 0)))
    = option_map (F32.sub (F32.of_int 385)) (F32.div (F32.of_int 11) (F32.of_int 40)).
Proof. vm_compute. repeat split. Qed.

Example float_speed :
  units 149 (SFadd 24 128 (SFdiv 24 128 (f32 99 0) (f32 200 0))
                          (SFdiv 24 128 (f32 2 0) (f32 10 0)))
  = option_map (fun q => F32.add q (F32.lit 2 10))
               (F32.div (F32.of_int 99) (F32.lit 200 1)).
Proof. vm_compute. reflexivity. Qed.

Example float_size :
  units 149 (SFmul 24 128
               (SFsub 24 128 (f32 1 0) (SFdiv 24 128 (f32 100 0) (f32 512 0)))
               (f32 3 0))
  = star_size (F32.of_int 100).
Proof. vm_compute. reflexivity. Qed.

Example float_time :
  units 149 (SFadd 24 128 (SFdiv 24 128 (f32 5 0) (f32 100 0))
                          (SFdiv 24 128 (f32 5 0) (f32 100 0)))
  = Some (time_step (time_step 0)).
Proof. vm_compute. reflexivity. Qed.

(** All hundred speeds that [init_stars] can draw. *)
Example float_speeds :
  forallb (fun r => same (spec_speed r) (model_speed r)) (map Z.of_nat (seq 0 100)) = true.
Proof. vm_compute. reflexivity. Qed.

(** The scroll offset from 800 down, 1000 decrements by [1.5f]; and the
    same from [2^24], where the subtraction is not exact any more. *)
Example float_scroll :
  sub_chains_agree 1000 (f32 800 0) (f32 3 (-1)) (F32.of_int 800) (F32.lit 15 10) = true
  /\ sub_chains_agree 1000 (f32 (- 16777216) 0) (f32 3 (-1))
                      (F32.of_int (- 16777216)) (F32.lit 15 10) = true.
Proof. vm_compute. split; reflexivity. Qed.

(** A depth from 511 down by the largest and by the smallest speed. *)
Example float_depth :
  sub_chains_agree 800 (f32 511 0) (spec_speed 99) (F32.of_int 511) (model_speed 99) = true
  /\ sub_chains_agree 2600 (f32 511 0) (spec_speed 0) (F32.of_int 511) (model_speed 0) = true.
Proof. vm_compute. split; reflexivity. Qed.

Example double_wave :
  units 1074 (SFmul 53 1024
                (SFdiv 53 1024
                   (SFadd 53 1024 (SFdiv 53 1024 (f64 1 0) (f64 3 0)) (f64 1 0))
                   (f64 2 0))
                (f64 255 0))
  = match F64.div F64.one (F64.of_int 3) with
    | Some third =>
        option_map (fun hlf => F64.mul hlf (F64.of_int 255)) (wave_of third)
    | None => None
    end.
Proof. vm_compute. reflexivity. Qed.

End Agreement.

(** * The star field *)

Module StarFacts.
Import IEEE IEEEFacts F32Facts.

#[local] Abbreviation one := F32.one.

Lemma lit_200 : F32.lit 200 1 = 200 * one.
Proof. vm_compute. reflexivity. Qed.

Lemma speed_min : F32.add 0 (F32.lit 2 10) = F32.lit 2 10 /\ one <= 5 * F32.lit 2 10.
Proof. split; [vm_compute; reflexivity|]. apply Z.leb_le. vm_compute. reflexivity. Qed.

Lemma speed_max :
  exists q, F32.div (F32.of_int 99) (F32.lit 200 1) = Some q
            /\ 1000 * F32.add q (F32.lit 2 10) <= 695 * one.
Proof.
  exists (F32.round (99 * one * one) (200 * one)). split.
  - vm_compute. reflexivity.
  - apply Z.leb_le. vm_compute. reflexivity.
Qed.

Lemma div_zero_num b q : F32.div 0 b = Some q -> q = 0.
Proof.
  unfold F32.div. destruct (b =? 0); [discriminate|].
  rewrite Z.mul_0_r, Z.mul_0_l. intros [= <-]. reflexivity.
Qed.

(** The speed drawn by [init_stars] for any value of [rand()]. *)
Lemma init_speed r :
  0 <= r ->
  exists q, F32.div (F32.of_int (r mod 100)) (F32.lit 200 1) = Some q
            /\ one <= 5 * F32.add q (F32.lit 2 10)
            /\ 1000 * F32.add q (F32.lit 2 10) <= 695 * one.
Proof.
  intros Hr.
  pose proof (Z.mod_pos_bound r 100 ltac:(lia)) as M.
  pose proof f32_one_pos as P1.
  assert (P200 : 0 < F32.lit 200 1) by (rewrite lit_200; lia).
  destruct (f32_div_total (F32.of_int (r mod 100)) (F32.lit 200 1) ltac:(lia)) as [q Hq].
  destruct (f32_div_total (F32.of_int 0) (F32.lit 200 1) ltac:(lia)) as [q0 Hq0].
  destruct speed_max as [q99 [Hq99 Hmax]].
  destruct speed_min as [Hmin1 Hmin2].
  exists q. split; [assumption|].
  assert (L : q0 <= q).
  { eapply f32_div_mono; [exact P200| |exact Hq0|exact Hq]. apply f32_of_int_mono. lia. }
  assert (U : q <= q99).
  { eapply f32_div_mono; [exact P200| |exact Hq|exact Hq99]. apply f32_of_int_mono. lia. }
  rewrite f32_of_int_0 in Hq0. apply div_zero_num in Hq0. subst q0.
  pose proof (f32_add_mono 0 (F32.lit 2 10) q (F32.lit 2 10) L ltac:(lia)) as A1.
  pose proof (f32_add_mono q (F32.lit 2 10) q99 (F32.lit 2 10) U ltac:(lia)) as A2.
  rewrite Hmin1 in A1. lia.
Qed.

Lemma init_star_total g : exists s g', init_star g = Some (s, g').
Proof.
  unfold init_star, rand. cbv beta iota.
  destruct (init_speed (Z.of_N (g 3%nat)) (N2Z.is_nonneg _)) as [q [Hq _]].
  rewrite Hq. cbv [bind]. eauto.
Qed.

Lemma init_star_inv g s g' : init_star g = Some (s, g') -> star_inv s.
Proof.
  unfold init_star, rand. cbv beta iota.
  destruct (init_speed (Z.of_N (g 3%nat)) (N2Z.is_nonneg _)) as [q [Hq [L U]]].
  rewrite Hq. cbv [bind]. intros [= <- _].
  unfold star_inv, speed_in_range. cbn [z speed].
  pose proof (Z.mod_pos_bound (Z.of_N (g 2%nat)) STAR_SPREAD ltac:(reflexivity)) as M.
  split; [split|split; assumption].
  - rewrite <- f32_of_int_0. apply f32_of_int_mono. lia.
  - apply f32_of_int_mono. lia.
Qed.

Lemma init_stars_loop_total n g : exists l g', init_stars_loop n g = Some (l, g').
Proof.
  revert g. induction n as [|n IH]; intros g; cbn [init_stars_loop].
  - eauto.
  - destruct (init_star_total g) as [s [g1 E]]. rewrite E. cbv [bind]. cbn [snd fst].
    destruct (IH g1) as [l [g2 E2]]. rewrite E2. cbn [snd fst]. eauto.
Qed.

Lemma init_stars_loop_inv n g l g' :
  init_stars_loop n g = Some (l, g') -> Forall star_inv l /\ length l = n.
Proof.
  revert g l g'. induction n as [|n IH]; intros g l g'; cbn [init_stars_loop].
  - intros [= <- _]. split; [constructor|reflexivity].
  - destruct (init_star g) as [[s g1]|] eqn:E; cbv [bind]; [|discriminate].
    cbn [snd fst].
    destruct (init_stars_loop n g1) as [[l1 g2]|] eqn:E2; [|discriminate].
    cbn [snd fst]. intros [= <- _].
    destruct (IH _ _ _ E2) as [F Len].
    split; [constructor; [eapply init_star_inv; eassumption|assumption]|].
    cbn [length]. congruence.
Qed.

(** *** One call of [update_stars] on one star *)

Lemma one_split : one = 16384 * 2 ^ 135.
Proof. vm_compute. reflexivity. Qed.

(** Below 512 a [float] is at most [2^-15] away from the exact value. *)
Lemma round_near v :
  Z.abs v <= 512 * one -> 2 * Z.abs (F32.round v 1 - v) <= 2 ^ 135.
Proof.
  intros Hv.
  pose proof (f32_round_error v 1 ltac:(lia)) as E.
  rewrite Z.mul_1_r, Z.mul_1_l in E.
  eapply Z.le_trans; [exact E|].
  apply Z.pow_le_mono_r; [lia|].
  unfold ulp_exp. rewrite Z.div_1_r.
  assert (L : Z.log2 (Z.abs v) < 159).
  { destruct (Z.eq_dec (Z.abs v) 0) as [->|NZ]; [reflexivity|].
    apply Z.log2_lt_pow2; [lia|].
    assert (T : 512 * one < 2 ^ 159) by (apply Z.ltb_lt; vm_compute; reflexivity).
    lia. }
  unfold F32.prec. lia.
Qed.

(** The subtraction [z -= speed] strictly decreases the depth. *)
Lemma sub_speed_lt s : star_inv s -> F32.sub (z s) (speed s) < z s.
Proof.
  intros [[Z0 Z1] [S0 S1]]. rewrite f32_of_int_spread in Z1.
  pose proof f32_one_pos as P. pose proof one_split as O.
  assert (P' : 0 < 2 ^ 135) by (apply Z.pow_pos_nonneg; lia).
  pose proof (round_near (z s - speed s) ltac:(lia)) as N.
  unfold F32.sub. lia.
Qed.

Lemma sub_speed_le_spread s :
  star_inv s -> F32.sub (z s) (speed s) <= F32.of_int STAR_SPREAD.
Proof.
  intros [[Z0 Z1] [S0 S1]]. rewrite f32_of_int_spread in Z1.
  pose proof f32_one_pos as P.
  apply f32_sub_le_of_int. unfold STAR_SPREAD. lia.
Qed.

(** [z <= 0] after the subtraction: respawn at depth [STAR_SPREAD], with
    the next two values of [rand()] for [x] and [y]. *)
Lemma update_star_respawn s g :
  F32.sub (z s) (speed s) <= 0 ->
  update_star s g = (respawn s g, fun i => g (S (S i))).
Proof.
  intros H. unfold update_star, F32.leb. rewrite f32_of_int_0.
  destruct (Z.leb_spec (F32.sub (z s) (speed s)) 0); [reflexivity|lia].
Qed.

(** Otherwise only [z] changes, and [rand()] is not called. *)
Lemma update_star_advance s g :
  0 < F32.sub (z s) (speed s) ->
  update_star s g =
    ({| x := x s; y := y s; z := F32.sub (z s) (speed s); speed := speed s |}, g).
Proof.
  intros H. unfold update_star, F32.leb. rewrite f32_of_int_0.
  destruct (Z.leb_spec (F32.sub (z s) (speed s)) 0); [lia|reflexivity].
Qed.

Lemma update_star_cases s g :
  (F32.sub (z s) (speed s) <= 0 /\
   update_star s g = (respawn s g, fun i => g (S (S i))))
  \/ (0 < F32.sub (z s) (speed s) /\
      update_star s g =
        ({| x := x s; y := y s; z := F32.sub (z s) (speed s); speed := speed s |}, g)).
Proof.
  destruct (Z_le_gt_dec (F32.sub (z s) (speed s)) 0) as [H|H].
  - left. split; [assumption|]. now apply update_star_respawn.
  - right. split; [lia|]. apply update_star_advance. lia.
Qed.

Lemma update_star_speed s g : speed (fst (update_star s g)) = speed s.
Proof.
  destruct (update_star_cases s g) as [[_ ->]|[_ ->]]; reflexivity.
Qed.

Lemma spread_pos : 0 < F32.of_int STAR_SPREAD.
Proof. rewrite f32_of_int_spread. pose proof f32_one_pos. lia. Qed.

Lemma update_star_range s g :
  star_inv s -> z_in_range (fst (update_star s g)).
Proof.
  intros I. pose proof spread_pos.
  destruct (update_star_cases s g) as [[_ ->]|[P ->]]; unfold z_in_range; cbn [fst z respawn].
  - lia.
  - split; [assumption|]. now apply sub_speed_le_spread.
Qed.

Lemma update_star_inv s g : star_inv s -> star_inv (fst (update_star s g)).
Proof.
  intros I. pose proof (update_star_range s g I) as [R0 R1].
  pose proof (update_star_speed s g) as Sp.
  destruct I as [_ Sr]. unfold star_inv, speed_in_range in *.
  rewrite Sp. lia.
Qed.

(** *** The whole array *)

Lemma update_stars_cons s rest g :
  update_stars (s :: rest) g =
    (fst (update_star s g) :: fst (update_stars rest (snd (update_star s g))),
     snd (update_stars rest (snd (update_star s g)))).
Proof.
  cbn [update_stars]. destruct (update_star s g) as [s' g1]. cbn [fst snd].
  destruct (update_stars rest g1). reflexivity.
Qed.

(** A relation that every single update establishes holds between the
    array before and after [update_stars], star by star. *)
Lemma update_stars_Forall2 (I : Star -> Prop) (R : Star -> Star -> Prop) :
  (forall s g, I s -> R s (fst (update_star s g))) ->
  forall l g, Forall I l -> Forall2 R l (fst (update_stars l g)).
Proof.
  intros H l. induction l as [|s rest IH]; intros g F.
  - constructor.
  - rewrite update_stars_cons. cbn [fst]. inversion F; subst.
    constructor; auto.
Qed.

Lemma update_stars_Forall (I P : Star -> Prop) :
  (forall s g, I s -> P (fst (update_star s g))) ->
  forall l g, Forall I l -> Forall P (fst (update_stars l g)).
Proof.
  intros H l. induction l as [|s rest IH]; intros g F.
  - constructor.
  - rewrite update_stars_cons. cbn [fst]. inversion F; subst.
    constructor; auto.
Qed.

Lemma update_stars_n_S n l g :
  update_stars_n (S n) l g =
    update_stars_n n (fst (update_stars l g)) (snd (update_stars l g)).
Proof. cbn [update_stars_n]. destruct (update_stars l g). reflexivity. Qed.

Lemma update_stars_n_inv n : forall l g,
  Forall star_inv l -> Forall star_inv (fst (update_stars_n n l g)).
Proof.
  induction n as [|n IH]; intros l g F; [exact F|].
  rewrite update_stars_n_S. apply IH.
  apply (update_stars_Forall star_inv star_inv); [|exact F].
  intros s g0. apply update_star_inv.
Qed.

(** After at least one call every depth is in (0, STAR_SPREAD]. *)
Lemma update_stars_n_range n : forall l g,
  Forall star_inv l -> Forall z_in_range (fst (update_stars_n (S n) l g)).
Proof.
  induction n as [|n IH]; intros l g F.
  - rewrite update_stars_n_S. cbn [update_stars_n].
    apply (update_stars_Forall star_inv z_in_range); [|exact F].
    intros s g0. apply update_star_range.
  - rewrite update_stars_n_S. apply IH.
    apply (update_stars_Forall star_inv star_inv); [|exact F].
    intros s g0. apply update_star_inv.
Qed.

Lemma update_stars_speed l : forall g,
  map speed (fst (update_stars l g)) = map speed l.
Proof.
  induction l as [|s rest IH]; intros g; [reflexivity|].
  rewrite update_stars_cons. cbn [fst map].
  rewrite update_star_speed, IH. reflexivity.
Qed.

Lemma update_stars_n_speed n : forall l g,
  map speed (fst (update_stars_n n l g)) = map speed l.
Proof.
  induction n as [|n IH]; intros l g; [reflexivity|].
  rewrite update_stars_n_S, IH. apply update_stars_speed.
Qed.

(** *** Initialisation, star by star *)

Lemma init_star_z g s g' :
  init_star g = Some (s, g') -> z s = F32.of_int (Z.of_N (g 2%nat) mod STAR_SPREAD).
Proof.
  unfold init_star, rand. cbv beta iota.
  destruct (F32.div _ _); cbv [bind]; [|discriminate].
  intros [= <- _]. reflexivity.
Qed.

Lemma init_stars_head g s g1 :
  init_star g = Some (s, g1) ->
  exists rest g', init_stars g = Some (s :: rest, g').
Proof.
  intros E. unfold init_stars.
  assert (N : NUM_STARS = S 499) by reflexivity.
  rewrite N. generalize 499%nat. intros n. cbn [init_stars_loop].
  rewrite E. cbv [bind]. cbn [fst snd].
  destruct (init_stars_loop_total n g1) as [rest [g' E']].
  rewrite E'. cbn [fst snd]. eauto.
Qed.

Lemma init_stars_total g : exists l g', init_stars g = Some (l, g').
Proof. unfold init_stars. exact (init_stars_loop_total NUM_STARS g). Qed.

Lemma init_stars_inv g l g' : init_stars g = Some (l, g') -> Forall star_inv l.
Proof.
  unfold init_stars. intros E.
  exact (proj1 (init_stars_loop_inv NUM_STARS g l g' E)).
Qed.

Lemma init_stars_length g l g' : init_stars g = Some (l, g') -> length l = NUM_STARS.
Proof.
  unfold init_stars. intros E.
  exact (proj2 (init_stars_loop_inv NUM_STARS g l g' E)).
Qed.

(** *** Rendering *)

Lemma star_size_total zs : exists sz, star_size zs = Some sz.
Proof.
  unfold star_size. pose proof spread_pos.
  destruct (f32_div_total zs (F32.of_int STAR_SPREAD)) as [q Hq]; [lia|].
  rewrite Hq. cbv [bind]. eauto.
Qed.

Lemma render_star_total s : exists r, render_star s = Some r.
Proof.
  unfold render_star, F32.ltb. rewrite f32_of_int_0.
  destruct (Z.ltb_spec 0 (z s)); [|eauto].
  destruct (f32_div_total (F32.lit 128 1) (z s)) as [k Hk]; [lia|].
  rewrite Hk. cbv [bind].
  match goal with |- context [if ?c then _ else _] => destruct c end; [|eauto].
  destruct (star_size_total (z s)) as [sz Hs]. rewrite Hs. eauto.
Qed.

Lemma render_stars_total l : exists r, render_stars l = Some r.
Proof.
  induction l as [|s rest [rs IH]]; cbn [render_stars]; [eauto|].
  destruct (render_star_total s) as [r Hr]. rewrite Hr, IH. cbv [bind]. eauto.
Qed.

Lemma render_star_skip s : z s <= 0 -> render_star s = Some [].
Proof.
  intros H. unfold render_star, F32.ltb. rewrite f32_of_int_0.
  destruct (Z.ltb_spec 0 (z s)); [lia|reflexivity].
Qed.

(** *** The size of the drawn point *)

Lemma size_consts :
  F32.div 0 (F32.of_int STAR_SPREAD) = Some 0
  /\ F32.div (F32.of_int STAR_SPREAD) (F32.of_int STAR_SPREAD) = Some (F32.lit 1 1)
  /\ F32.sub (F32.lit 1 1) 0 = F32.lit 1 1
  /\ F32.sub (F32.lit 1 1) (F32.lit 1 1) = 0
  /\ F32.mul (F32.lit 1 1) (F32.of_int 3) = F32.of_int 3
  /\ F32.mul 0 (F32.of_int 3) = 0
  /\ F32.of_int 3 = 3 * one.
Proof. vm_compute. repeat split. Qed.

Lemma star_size_mono z1 z2 s1 s2 :
  z1 <= z2 -> star_size z1 = Some s1 -> star_size z2 = Some s2 -> s2 <= s1.
Proof.
  intros Hz. unfold star_size. pose proof spread_pos as P.
  destruct (F32.div z1 _) as [q1|] eqn:E1; cbv [bind]; [|intros H; discriminate H].
  destruct (F32.div z2 _) as [q2|] eqn:E2; [|intros _ H; discriminate H].
  intros H1 H2. apply Some_inj in H1, H2. subst s1 s2.
  pose proof (f32_div_mono _ _ _ _ _ P Hz E1 E2) as Q.
  apply f32_mul_mono_r.
  - destruct size_consts as (_ & _ & _ & _ & _ & _ & ->). pose proof f32_one_pos. lia.
  - apply f32_sub_mono; lia.
Qed.

Lemma star_size_bounds zs sz :
  0 <= zs <= F32.of_int STAR_SPREAD -> star_size zs = Some sz ->
  0 <= sz <= F32.of_int 3.
Proof.
  intros [Z0 Z1] E.
  destruct size_consts as (D0 & D1 & S0 & S1 & M1 & M0 & T).
  assert (E0 : star_size 0 = Some (F32.of_int 3)).
  { unfold star_size. rewrite D0. cbv [bind]. now rewrite S0, M1. }
  assert (E1 : star_size (F32.of_int STAR_SPREAD) = Some 0).
  { unfold star_size. rewrite D1. cbv [bind]. now rewrite S1, M0. }
  split.
  - exact (star_size_mono _ _ _ _ Z1 E E1).
  - exact (star_size_mono _ _ _ _ Z0 E0 E).
Qed.

Lemma f32_to_int_mono a b : a <= b -> F32.to_int a <= F32.to_int b.
Proof. intros. apply Z.quot_le_mono; [apply f32_one_pos|assumption]. Qed.

Lemma update_star_advanced s g : star_inv s -> advanced s (fst (update_star s g)).
Proof.
  intros I. pose proof (sub_speed_lt s I) as D.
  unfold advanced. rewrite update_star_speed.
  split; [reflexivity|]. split; [assumption|].
  destruct (update_star_cases s g) as [[H ->]|[H ->]]; cbn [fst z respawn]; auto.
Qed.

Lemma speed_pos s : speed_in_range s -> 0 < speed s.
Proof. intros [L _]. pose proof f32_one_pos. lia. Qed.

End StarFacts.

(** * The properties of the star field *)

(** C9: [render_stars] never divides by zero: it returns its rectangles
    for every array.  A star with [z <= 0] is skipped, and the divide
    [128 / z] is defined for every star with [z > 0].  A depth of exactly
    0 does come out of [init_stars] (whenever [rand() % STAR_SPREAD] is
    0); such a star is skipped by [render_stars], and its first update
    respawns it at [STAR_SPREAD]. *)
Theorem C9_no_division_by_zero :
  (forall l, exists rects, render_stars l = Some rects)
  /\ (forall s,
        (z s <= 0 /\ render_star s = Some [])
        \/ (0 < z s /\ exists k, F32.div (F32.lit 128 1) (z s) = Some k))
  /\ (exists s rest g',
        init_stars rng_zero_depth = Some (s :: rest, g')
        /\ z s = 0
        /\ render_star s = Some []
        /\ forall g1, z (fst (update_star s g1)) = F32.of_int STAR_SPREAD).
Proof.
  split; [exact StarFacts.render_stars_total|]. split.
  - intros s. destruct (Z_le_gt_dec (z s) 0) as [H|H].
    + left. split; [exact H|]. now apply StarFacts.render_star_skip.
    + right. split; [lia|]. apply F32Facts.f32_div_total. lia.
  - destruct (StarFacts.init_star_total rng_zero_depth) as [s [g1 E]].
    destruct (StarFacts.init_stars_head _ _ _ E) as [rest [g' E']].
    pose proof (StarFacts.init_star_z _ _ _ E) as Hz.
    change (F32.of_int (Z.of_N (rng_zero_depth 2%nat) mod STAR_SPREAD)) with 0 in Hz.
    exists s, rest, g'. split; [exact E'|]. split; [exact Hz|]. split.
    + apply StarFacts.render_star_skip. lia.
    + intros g2.
      pose proof (StarFacts.sub_speed_lt s (StarFacts.init_star_inv _ _ _ E)) as D.
      rewrite StarFacts.update_star_respawn by lia. reflexivity.
Qed.

(** C8, as the program has it: for depths [0 < z1 <= z2 <= STAR_SPREAD]
    the size computed at [z1] is at least the size computed at [z2]
    (not always greater), both as the [float] [size] and as the integer
    width and height of the rectangle, and neither exceeds 3. *)
Theorem C8_size_monotone (z1 z2 : Z) :
  0 < z1 -> z1 <= z2 -> z2 <= F32.of_int STAR_SPREAD ->
  exists s1 s2,
    star_size z1 = Some s1 /\ star_size z2 = Some s2
    /\ 0 <= s2 <= s1 /\ s1 <= F32.of_int 3
    /\ 0 <= F32.to_int s2 <= F32.to_int s1 /\ F32.to_int s1 <= 3.
Proof.
  intros H0 H12 H2.
  destruct (StarFacts.star_size_total z1) as [s1 E1].
  destruct (StarFacts.star_size_total z2) as [s2 E2].
  exists s1, s2. split; [exact E1|]. split; [exact E2|].
  pose proof (StarFacts.star_size_mono _ _ _ _ H12 E1 E2) as M.
  pose proof (StarFacts.star_size_bounds z1 s1 ltac:(lia) E1) as [L1 U1].
  pose proof (StarFacts.star_size_bounds z2 s2 ltac:(lia) E2) as [L2 U2].
  pose proof (StarFacts.f32_to_int_mono _ _ L2) as T0.
  pose proof (StarFacts.f32_to_int_mono _ _ M) as T1.
  pose proof (StarFacts.f32_to_int_mono _ _ U1) as T2.
  change (F32.to_int 0) with 0 in T0.
  change (F32.to_int (F32.of_int 3)) with 3 in T2.
  lia.
Qed.

Lemma C8_size_monotone_witness :
  exists s1 s2,
    star_size (F32.of_int 100) = Some s1 /\ star_size (F32.of_int 101) = Some s2
    /\ 0 <= s2 <= s1 /\ s1 <= F32.of_int 3
    /\ 0 <= F32.to_int s2 <= F32.to_int s1 /\ F32.to_int s1 <= 3.
Proof.
  apply (C8_size_monotone (F32.of_int 100) (F32.of_int 101)).
  - vm_compute. reflexivity.
  - vm_compute. discriminate.
  - vm_compute. discriminate.
Defined.

(** The claim of a strictly greater size fails: at depths 100 and 101
    both rectangles are 2 pixels wide, and at the depths [2^-20] and
    [2^-19] even the two [float] sizes are equal (both exactly 3). *)
Lemma C8_counterexample :
  (0 < F32.of_int 100 < F32.of_int 101 /\ F32.of_int 101 <= F32.of_int STAR_SPREAD
   /\ option_map F32.to_int (star_size (F32.of_int 100)) = Some 2
   /\ option_map F32.to_int (star_size (F32.of_int 101)) = Some 2)
  /\ (0 < F32.lit 1 1048576 < F32.lit 1 524288
      /\ F32.lit 1 524288 <= F32.of_int STAR_SPREAD
      /\ star_size (F32.lit 1 1048576) = Some (F32.of_int 3)
      /\ star_size (F32.lit 1 524288) = Some (F32.of_int 3)).
Proof.
  vm_compute. repeat split; try reflexivity; discriminate.
Qed.

(** * The scroller offset *)

Module ScrollFacts.
Import IEEE IEEEFacts F32Facts.

#[local] Abbreviation one := F32.one.

Lemma one_half : one = 2 * half.
Proof. reflexivity. Qed.

Lemma half_pos : 0 < half.
Proof. unfold half. apply Z.pow_pos_nonneg; lia. Qed.

Lemma step_value : F32.lit 15 10 = 3 * half.
Proof. vm_compute. reflexivity. Qed.

(** Multiples of [0.5] below [2^23] in magnitude are [float]s. *)
Lemma round_half h : Z.abs h < 2 ^ 24 -> F32.round (h * half) 1 = h * half.
Proof.
  intros H. rewrite <- (Z.mul_1_r (h * half)) at 1.
  apply f32_round_exact; [|lia].
  apply f32_format_small; [lia|exact H].
Qed.

Lemma of_int_exact n : Z.abs n < 2 ^ 23 -> F32.of_int n = n * one.
Proof.
  intros H. unfold F32.of_int. rewrite one_half.
  replace (n * (2 * half)) with ((2 * n) * half) by ring.
  apply round_half. lia.
Qed.

(** Subtracting [1.5f] from such a value is exact. *)
Lemma sub_step h :
  Z.abs (h - 3) < 2 ^ 24 -> F32.sub (h * half) (F32.lit 15 10) = (h - 3) * half.
Proof.
  intros H. unfold F32.sub. rewrite step_value.
  replace (h * half - 3 * half) with ((h - 3) * half) by ring.
  now apply round_half.
Qed.

Lemma scroll_init textW : 0 <= textW -> scroll_inv textW (F32.of_int SCREEN_WIDTH).
Proof.
  intros H. exists 1600. split; [|lia].
  vm_compute. reflexivity.
Qed.

Lemma scroll_step_spec textW h :
  0 <= textW <= 8388606 -> - (2 * textW) <= h <= 1600 ->
  F32.sub (h * half) (F32.lit 15 10) = (h - 3) * half
  /\ F32.of_int (- textW) = - (2 * textW) * half
  /\ scroll_step textW (h * half) =
       if h - 3 <? - (2 * textW) then 1600 * half else (h - 3) * half.
Proof.
  intros Hw Hh.
  assert (E1 : F32.sub (h * half) (F32.lit 15 10) = (h - 3) * half).
  { apply sub_step. change (2 ^ 24) with 16777216. lia. }
  assert (E2 : F32.of_int (- textW) = - (2 * textW) * half).
  { rewrite of_int_exact, one_half by (change (2 ^ 23) with 8388608; lia). ring. }
  split; [exact E1|]. split; [exact E2|].
  unfold scroll_step. rewrite E1, E2. unfold F32.ltb.
  pose proof half_pos as P.
  replace (F32.of_int SCREEN_WIDTH) with (1600 * half) by (vm_compute; reflexivity).
  destruct (Z.ltb_spec ((h - 3) * half) (- (2 * textW) * half));
    destruct (Z.ltb_spec (h - 3) (- (2 * textW))); try reflexivity; nia.
Qed.

Lemma scroll_step_inv textW x :
  0 <= textW <= 8388606 -> scroll_inv textW x -> scroll_inv textW (scroll_step textW x).
Proof.
  intros Hw [h [-> Hh]].
  destruct (scroll_step_spec textW h Hw Hh) as (_ & _ & ->).
  destruct (Z.ltb_spec (h - 3) (- (2 * textW))).
  - exists 1600. split; [reflexivity|lia].
  - exists (h - 3). split; [reflexivity|lia].
Qed.

Lemma scroll_iter_inv textW n :
  0 <= textW <= 8388606 ->
  scroll_inv textW (Nat.iter n (scroll_step textW) (F32.of_int SCREEN_WIDTH)).
Proof.
  intros Hw. induction n as [|n IH].
  - apply scroll_init. lia.
  - rewrite Nat.iter_succ. now apply scroll_step_inv.
Qed.

(** With [textW = 400] the first 800 ticks are plain decrements. *)
Lemma scroll_400_prefix n :
  (n <= 800)%nat ->
  Nat.iter n (scroll_step 400) (F32.of_int SCREEN_WIDTH) = (1600 - 3 * Z.of_nat n) * half.
Proof.
  induction n as [|n IH]; intros Hn.
  - vm_compute. reflexivity.
  - rewrite Nat.iter_succ, IH by lia.
    destruct (scroll_step_spec 400 (1600 - 3 * Z.of_nat n) ltac:(lia) ltac:(lia))
      as (_ & _ & ->).
    destruct (Z.ltb_spec (1600 - 3 * Z.of_nat n - 3) (- (2 * 400))); [lia|].
    f_equal. lia.
Qed.

End ScrollFacts.

(** * The properties of the scroller offset *)

(** C4: on every tick [scrollX -= 1.5f] lowers the offset by exactly
    1.5 (the subtraction is exact, for a text narrower than [2^23]
    pixels); when the lowered offset is strictly below [-textW] the tick
    stores [SCREEN_WIDTH] itself, and otherwise the lowered offset.  The
    tick after a reset is a plain decrement, to 798.5, and the offset
    stays between [-textW] and [SCREEN_WIDTH]. *)
Theorem C4_scroll_tick (textW : Z) (n : nat) :
  0 <= textW <= 8388606 ->
  let x := Nat.iter n (scroll_step textW) (F32.of_int SCREEN_WIDTH) in
  let dec := F32.sub x (F32.lit 15 10) in
  2 * dec = 2 * x - 3 * F32.one
  /\ dec < x
  /\ F32.of_int (- textW) = - textW * F32.one
  /\ F32.of_int SCREEN_WIDTH = 800 * F32.one
  /\ scroll_step textW x =
       (if dec <? - textW * F32.one then F32.of_int SCREEN_WIDTH else dec)
  /\ 2 * scroll_step textW (F32.of_int SCREEN_WIDTH) = 1597 * F32.one
  /\ - textW * F32.one <= x <= 800 * F32.one.
Proof.
  intros Hw x dec.
  destruct (ScrollFacts.scroll_iter_inv textW n Hw) as [h [Hx Hh]].
  fold x in Hx.
  destruct (ScrollFacts.scroll_step_spec textW h Hw Hh) as (E1 & E2 & E3).
  destruct (ScrollFacts.scroll_step_spec textW 1600 Hw ltac:(lia)) as (_ & _ & E4).
  pose proof ScrollFacts.half_pos as P.
  pose proof ScrollFacts.one_half as O.
  assert (W : F32.of_int SCREEN_WIDTH = 1600 * half)
    by (vm_compute; reflexivity).
  unfold dec. rewrite Hx, E1, E2, E3, W, E4, O.
  repeat split; try lia.
  - destruct (Z.ltb_spec (h - 3) (- (2 * textW)));
      destruct (Z.ltb_spec ((h - 3) * half) (- textW * (2 * half)));
      try reflexivity; nia.
  - destruct (Z.ltb_spec (1600 - 3) (- (2 * textW))); lia.
  - nia.
  - nia.
Qed.

Lemma C4_scroll_tick_witness :
  let x := Nat.iter 801 (scroll_step 400) (F32.of_int SCREEN_WIDTH) in
  let dec := F32.sub x (F32.lit 15 10) in
  2 * dec = 2 * x - 3 * F32.one
  /\ dec < x
  /\ F32.of_int (- 400) = - 400 * F32.one
  /\ F32.of_int SCREEN_WIDTH = 800 * F32.one
  /\ scroll_step 400 x =
       (if dec <? - 400 * F32.one then F32.of_int SCREEN_WIDTH else dec)
  /\ 2 * scroll_step 400 (F32.of_int SCREEN_WIDTH) = 1597 * F32.one
  /\ - 400 * F32.one <= x <= 800 * F32.one.
Proof.
  apply (C4_scroll_tick 400 801). lia.
Defined.

(** C3, as the program has it: from offset 800 with [textW = 400], each
    of the first 800 ticks is a plain decrement, so after [n <= 800] ticks
    the offset is [800 - 1.5 n], never below -400; the 801st tick is the
    first whose decremented offset (-401.5) is below -400, and that tick
    resets the offset to 800. *)
Theorem C3_wrap_at_tick_801 :
  Forall (fun n =>
            let x := Nat.iter n (scroll_step 400) (F32.of_int SCREEN_WIDTH) in
            2 * x = (1600 - 3 * Z.of_nat n) * F32.one /\ F32.of_int (- 400) <= x)
         (seq 0 801)
  /\ F32.sub (Nat.iter 800 (scroll_step 400) (F32.of_int SCREEN_WIDTH)) (F32.lit 15 10)
       < F32.of_int (- 400)
  /\ Nat.iter 801 (scroll_step 400) (F32.of_int SCREEN_WIDTH) = F32.of_int SCREEN_WIDTH.
Proof.
  pose proof ScrollFacts.half_pos as P.
  pose proof ScrollFacts.one_half as O.
  assert (M : F32.of_int (- 400) = - 800 * half) by (vm_compute; reflexivity).
  assert (W : F32.of_int SCREEN_WIDTH = 1600 * half) by (vm_compute; reflexivity).
  destruct (ScrollFacts.scroll_step_spec 400 (-800) ltac:(lia) ltac:(lia)) as (E1 & _ & E3).
  pose proof (ScrollFacts.scroll_400_prefix 800 ltac:(lia)) as L.
  change (1600 - 3 * Z.of_nat 800) with (-800) in L.
  split; [|split].
  - apply Forall_forall. intros n Hn. apply in_seq in Hn.
    cbv zeta. rewrite ScrollFacts.scroll_400_prefix, M, O by lia. nia.
  - rewrite L, E1, M. lia.
  - rewrite Nat.iter_succ, L, E3, W. reflexivity.
Qed.

(** The 800th tick is not the wrap: its decremented offset is exactly
    -400, which is not below -400, and the offset after it is -400, not
    800. *)
Lemma C3_counterexample :
  let before := Nat.iter 799 (scroll_step 400) (F32.of_int SCREEN_WIDTH) in
  let after := Nat.iter 800 (scroll_step 400) (F32.of_int SCREEN_WIDTH) in
  F32.sub before (F32.lit 15 10) = F32.of_int (- 400)
  /\ F32.ltb (F32.sub before (F32.lit 15 10)) (F32.of_int (- 400)) = false
  /\ after = F32.of_int (- 400)
  /\ after <> F32.of_int SCREEN_WIDTH.
Proof.
  vm_compute. repeat split. discriminate.
Qed.

(** * The main loop *)

Module MainFacts.

Lemma poll_events_stopped pending : poll_events pending 0 = 0.
Proof.
  induction pending as [|e rest IH]; cbn [poll_events]; [reflexivity|].
  destruct (SDL.type e =? SDL.QUIT); exact IH.
Qed.

(** A quit event among the pending ones clears [is_running]. *)
Lemma poll_events_quit pending running :
  Exists (fun e => SDL.type e = SDL.QUIT) pending -> poll_events pending running = 0.
Proof.
  intros H. revert running.
  induction H as [e rest Q|e rest _ IH]; intros running; cbn [poll_events].
  - rewrite Q, Z.eqb_refl. apply poll_events_stopped.
  - apply IH.
Qed.

(** Without one, [is_running] is left as it was. *)
Lemma poll_events_no_quit pending running :
  Forall (fun e => SDL.type e <> SDL.QUIT) pending -> poll_events pending running = running.
Proof.
  intros H. revert running.
  induction H as [|e rest Q _ IH]; intros running; cbn [poll_events]; [reflexivity|].
  destruct (Z.eqb_spec (SDL.type e) SDL.QUIT); [contradiction|apply IH].
Qed.

Lemma tick_fields textW pending a :
  let a' := tick textW pending a in
  (stars a', rand_state a') = update_stars (stars a) (rand_state a)
  /\ scrollX a' = scroll_step textW (scrollX a)
  /\ time_counter a' = time_step (time_counter a)
  /\ is_running a' = poll_events pending (is_running a).
Proof.
  unfold tick, update. cbn [stars rand_state scrollX time_counter is_running].
  destruct (update_stars (stars a) (rand_state a)) as [l g].
  cbn [stars rand_state scrollX time_counter is_running]. auto.
Qed.

(** Once [is_running] is 0 the loop does nothing more. *)
Lemma main_loop_stopped textW input a :
  is_running a = 0 -> main_loop textW input a = a.
Proof.
  intros H. destruct input as [|pending rest]; cbn [main_loop]; [reflexivity|].
  rewrite H. reflexivity.
Qed.

Lemma main_loop_running textW pending rest a :
  is_running a <> 0 ->
  main_loop textW (pending :: rest) a = main_loop textW rest (tick textW pending a).
Proof.
  intros H. cbn [main_loop].
  destruct (Z.eqb_spec (is_running a) 0); [contradiction|reflexivity].
Qed.

End MainFacts.

(** C1, as the program has it: a quit event among the events pending at
    a tick of the running loop clears [is_running] in that tick.  The
    rest of that tick still runs: the stars, the scroll offset and the
    time counter are advanced once more, exactly as in any other tick.
    The loop then ends with that state, and nothing advances afterwards. *)
Theorem C1_quit_stops_after_the_tick
  (textW : Z) (pending : list SDL.Event) (a : App) :
  is_running a <> 0 ->
  Exists (fun e => SDL.type e = SDL.QUIT) pending ->
  let a' := tick textW pending a in
  is_running a' = 0
  /\ (stars a', rand_state a') = update_stars (stars a) (rand_state a)
  /\ scrollX a' = scroll_step textW (scrollX a)
  /\ time_counter a' = time_step (time_counter a)
  /\ (forall rest, main_loop textW (pending :: rest) a = a')
  /\ (forall input, main_loop textW input a' = a').
Proof.
  intros Hrun Hquit a'.
  destruct (MainFacts.tick_fields textW pending a) as (Hs & Hx & Ht & Hr).
  fold a' in Hs, Hx, Ht, Hr.
  rewrite (MainFacts.poll_events_quit _ _ Hquit) in Hr.
  repeat (split; [assumption|]). split.
  - intros rest. rewrite MainFacts.main_loop_running by assumption.
    fold a'. now apply MainFacts.main_loop_stopped.
  - intros input. now apply MainFacts.main_loop_stopped.
Qed.

Lemma C1_quit_stops_after_the_tick_witness :
  let a' := tick 400 [quit_event] sample_app in
  is_running a' = 0
  /\ (stars a', rand_state a') = update_stars (stars sample_app) (rand_state sample_app)
  /\ scrollX a' = scroll_step 400 (scrollX sample_app)
  /\ time_counter a' = time_step (time_counter sample_app)
  /\ (forall rest, main_loop 400 ([quit_event] :: rest) sample_app = a')
  /\ (forall input, main_loop 400 input a' = a').
Proof.
  apply (C1_quit_stops_after_the_tick 400 [quit_event] sample_app).
  - discriminate.
  - constructor. reflexivity.
Defined.

(** The claim that nothing advances once the quit event has been seen
    fails: in the first tick after [main]'s initialisation, with a quit
    event pending, the loop stops, yet the time counter goes from 0 to
    0.05, the offset from 800 to 798.5, and the first star moves. *)
Lemma C1_counterexample :
  match main_init lcg with
  | None => False
  | Some a =>
      let a' := tick 400 [quit_event] a in
      is_running a = 1 /\ is_running a' = 0
      /\ time_counter a = 0 /\ time_counter a' = F32.lit 5 100
      /\ time_counter a' <> time_counter a
      /\ scrollX a' <> scrollX a
      /\ hd 0 (map z (stars a')) <> hd 0 (map z (stars a))
  end.
Proof.
  vm_compute. repeat split; discriminate.
Qed.

(** * Colour cyclers and raster bar *)

Module ColourFacts.
Import F64Facts.

#[local] Abbreviation one := F64.one.

Lemma cycle_cycle_of c_sin a : cycle c_sin a = cycle_of (c_sin (F64.of_float a)).
Proof. reflexivity. Qed.

Lemma two_pos : 0 < F64.of_float (F32.lit 2 1).
Proof. vm_compute. reflexivity. Qed.

Lemma wave_of_total v : exists h, wave_of v = Some h.
Proof. unfold wave_of. apply f64_div_total. pose proof two_pos. lia. Qed.

Lemma wave_of_mono v1 v2 h1 h2 :
  v1 <= v2 -> wave_of v1 = Some h1 -> wave_of v2 = Some h2 -> h1 <= h2.
Proof.
  unfold wave_of. intros Hv E1 E2.
  eapply f64_div_mono; [exact two_pos| |exact E1|exact E2].
  apply f64_add_mono; lia.
Qed.

Lemma wave_of_ends : wave_of (- one) = Some 0 /\ wave_of one = Some one.
Proof. vm_compute. split; reflexivity. Qed.

(** With a sine value in [-1, 1] the wave lies in [0, 1]. *)
Lemma wave_of_range v h : - one <= v <= one -> wave_of v = Some h -> 0 <= h <= one.
Proof.
  intros [L U] E. destruct wave_of_ends as [E0 E1]. split.
  - exact (wave_of_mono _ _ _ _ L E0 E).
  - exact (wave_of_mono _ _ _ _ U E E1).
Qed.

Lemma scale_consts n :
  n = 255 \/ n = 525 ->
  F64.mul 0 (F64.of_int n) = 0 /\ F64.mul one (F64.of_int n) = n * one
  /\ 0 <= F64.of_int n.
Proof.
  intros [-> | ->]; (split; [|split]); try (vm_compute; reflexivity);
    apply Z.leb_le; vm_compute; reflexivity.
Qed.

(** [(int)(h * n)] for a wave [h] in [0, 1] lies in [0, n]. *)
Lemma scaled_range h n :
  n = 255 \/ n = 525 -> 0 <= h <= one ->
  0 <= F64.to_int (F64.mul h (F64.of_int n)) <= n.
Proof.
  intros Hn [L U]. destruct (scale_consts n Hn) as (M0 & M1 & P).
  pose proof (f64_mul_mono_r (F64.of_int n) 0 h P L) as A.
  pose proof (f64_mul_mono_r (F64.of_int n) h one P U) as B.
  rewrite M0 in A. rewrite M1 in B.
  pose proof (f64_to_int_mono _ _ A) as A'. pose proof (f64_to_int_mono _ _ B) as B'.
  change (F64.to_int 0) with 0 in A'.
  unfold F64.to_int in B' at 2. rewrite Z.quot_mul in B' by (pose proof f64_one_pos; lia).
  lia.
Qed.

Lemma cycle_of_total v : exists c, cycle_of v = Some c.
Proof.
  unfold cycle_of. destruct (wave_of_total v) as [h E]. rewrite E. cbv [bind]. eauto.
Qed.

Lemma cycle_of_range v c : - one <= v <= one -> cycle_of v = Some c -> 0 <= c <= 255.
Proof.
  intros Hv. unfold cycle_of.
  destruct (wave_of v) as [h|] eqn:E; cbv [bind]; [|intros H; discriminate H].
  intros H. apply Some_inj in H. subst c.
  pose proof (scaled_range h 255 (or_introl eq_refl) (wave_of_range _ _ Hv E)) as R.
  unfold F64.to_uint8. rewrite Z.mod_small; lia.
Qed.

(** The byte grows with the sine value. *)
Lemma cycle_of_mono v1 v2 c1 c2 :
  - one <= v1 -> v1 <= v2 -> v2 <= one ->
  cycle_of v1 = Some c1 -> cycle_of v2 = Some c2 -> c1 <= c2.
Proof.
  intros L Hv U. unfold cycle_of.
  destruct (wave_of v1) as [h1|] eqn:E1; cbv [bind]; [|intros H; discriminate H].
  destruct (wave_of v2) as [h2|] eqn:E2; [|intros _ H; discriminate H].
  intros H1 H2. apply Some_inj in H1, H2. subst c1 c2.
  pose proof (wave_of_range v1 h1 ltac:(lia) E1) as R1.
  pose proof (wave_of_range v2 h2 ltac:(lia) E2) as R2.
  pose proof (scaled_range h1 255 (or_introl eq_refl) R1) as S1.
  pose proof (scaled_range h2 255 (or_introl eq_refl) R2) as S2.
  destruct (scale_consts 255 (or_introl eq_refl)) as (_ & _ & P).
  pose proof (f64_to_int_mono _ _ (f64_mul_mono_r (F64.of_int 255) h1 h2 P
                                 (wave_of_mono _ _ _ _ Hv E1 E2))) as T.
  unfold F64.to_uint8. rewrite !Z.mod_small; lia.
Qed.

(** A sine value bracketed by two values that give the same byte gives
    that byte. *)
Lemma cycle_of_between v a b k :
  - 100000 <= a -> b <= 100000 ->
  a * one <= 100000 * v <= b * one ->
  cycle_of (a * one / 100000) = Some k ->
  cycle_of (b * one / 100000) = Some k ->
  cycle_of v = Some k.
Proof.
  intros Ha Hb [L U] Elo Ehi. pose proof f64_one_pos as P.
  set (lo := a * one / 100000) in *. set (hi := b * one / 100000) in *.
  assert (Hlo : lo <= v) by (apply Z.div_le_upper_bound; lia).
  assert (Hhi : v <= hi) by (apply Z.div_le_lower_bound; lia).
  assert (Blo : - one <= lo) by (apply Z.div_le_lower_bound; nia).
  assert (Bhi : hi <= one) by (apply Z.div_le_upper_bound; nia).
  destruct (cycle_of_total v) as [c E]. rewrite E. f_equal.
  pose proof (cycle_of_mono lo v k c Blo Hlo ltac:(lia) Elo E).
  pose proof (cycle_of_mono v hi c k ltac:(lia) Hhi Bhi E Ehi).
  lia.
Qed.

(** [sine] at 2 and 4 to fifteen decimal places. *)
Lemma sine_digits :
  sine 0 = 0
  /\ 909297426825681 * one <= 10 ^ 15 * sine (2 * one) <= 909297426825682 * one
  /\ - 756802495307929 * one <= 10 ^ 15 * sine (4 * one) <= - 756802495307928 * one.
Proof.
  split; [vm_compute; reflexivity|].
  repeat split; apply Z.leb_le; vm_compute; reflexivity.
Qed.

Lemma sine_range v : - one <= sine v <= one.
Proof. unfold sine. pose proof f64_one_pos. lia. Qed.

End ColourFacts.

(** * The sine of the reals *)

Module SineFacts.
Local Open Scope R_scope.

Lemma zfact_pos n : (0 < zfact n)%Z.
Proof. induction n as [|n IH]; cbn [zfact]; lia. Qed.

Lemma INR_fact n : INR (fact n) = IZR (zfact n).
Proof.
  induction n as [|n IH].
  - reflexivity.
  - rewrite fact_simpl, mult_INR, IH. cbn [zfact].
    rewrite mult_IZR, <- INR_IZR_INZ. reflexivity.
Qed.

Lemma sin_term_IZR p n :
  sin_term (IZR p) n =
  IZR ((-1) ^ Z.of_nat n * p ^ Z.of_nat (2 * n + 1)) / IZR (zfact (2 * n + 1)).
Proof.
  unfold sin_term. rewrite INR_fact, mult_IZR, <- !pow_IZR.
  unfold Rdiv. ring.
Qed.

Lemma zfact_step n :
  zfact (2 * S n + 1) = (Z.of_nat (2 * S n) * Z.of_nat (2 * S n + 1) * zfact (2 * n + 1))%Z.
Proof.
  replace (2 * S n + 1)%nat with (S (S (2 * n + 1))) by lia.
  replace (2 * S n)%nat with (S (2 * n + 1)) by lia.
  cbn [zfact]. ring.
Qed.

Lemma sin_approx_num p n :
  sin_approx (IZR p) n = IZR (sin_num p n) / IZR (zfact (2 * n + 1)).
Proof.
  induction n as [|n IH].
  - unfold sin_approx. cbn [sum_f_R0 sin_num]. rewrite sin_term_IZR.
    change (Z.of_nat 0) with 0%Z. change (Z.of_nat (2 * 0 + 1)) with 1%Z.
    change (zfact (2 * 0 + 1)) with 1%Z.
    rewrite Z.pow_0_r, Z.pow_1_r, Z.mul_1_l. field.
  - unfold sin_approx in *. cbn [sum_f_R0]. rewrite IH, sin_term_IZR.
    rewrite zfact_step. cbn [sin_num].
    set (A := (Z.of_nat (2 * S n) * Z.of_nat (2 * S n + 1))%Z).
    set (F := zfact (2 * n + 1)).
    set (T := ((-1) ^ Z.of_nat (S n) * p ^ Z.of_nat (2 * S n + 1))%Z).
    assert (HF : IZR F <> 0) by (apply not_0_IZR; pose proof (zfact_pos (2 * n + 1)); lia).
    assert (HA : IZR A <> 0) by (apply not_0_IZR; unfold A; lia).
    rewrite plus_IZR, !mult_IZR. field. split; assumption.
Qed.

Lemma frac_le c d n m :
  (0 < d)%Z -> (0 < m)%Z -> (c * m <= n * d)%Z -> IZR c / IZR d <= IZR n / IZR m.
Proof.
  intros Hd Hm H. apply IZR_lt in Hd, Hm. apply IZR_le in H.
  rewrite !mult_IZR in H.
  apply Rmult_le_reg_r with (IZR d * IZR m); [nra|].
  replace (IZR c / IZR d * (IZR d * IZR m)) with (IZR c * IZR m) by (field; lra).
  replace (IZR n / IZR m * (IZR d * IZR m)) with (IZR n * IZR d) by (field; lra).
  exact H.
Qed.

(** The sine at 2 and at 4, to five decimal places. *)
Lemma sin_2 : 90929 / 100000 <= sin 2 <= 90930 / 100000.
Proof.
  destruct (pre_sin_bound 2 4 ltac:(lra) ltac:(lra)) as [L U].
  change (2 * 4 + 1)%nat with 9%nat in L. change (2 * (4 + 1))%nat with 10%nat in U.
  rewrite sin_approx_num in L, U.
  split.
  - eapply Rle_trans; [|exact L].
    apply frac_le; [lia|apply zfact_pos|]. apply Z.leb_le. vm_compute. reflexivity.
  - eapply Rle_trans; [exact U|].
    apply frac_le; [apply zfact_pos|lia|]. apply Z.leb_le. vm_compute. reflexivity.
Qed.

Lemma sin_4 : - 75681 / 100000 <= sin 4 <= - 75680 / 100000.
Proof.
  destruct (pre_sin_bound 4 6 ltac:(lra) ltac:(lra)) as [L U].
  change (2 * 6 + 1)%nat with 13%nat in L. change (2 * (6 + 1))%nat with 14%nat in U.
  rewrite sin_approx_num in L, U.
  split.
  - eapply Rle_trans; [|exact L].
    replace (- 75681 / 100000) with (IZR (-75681) / IZR 100000) by lra.
    apply frac_le; [lia|apply zfact_pos|]. apply Z.leb_le. vm_compute. reflexivity.
  - eapply Rle_trans; [exact U|].
    replace (- 75680 / 100000) with (IZR (-75680) / IZR 100000) by lra.
    apply frac_le; [apply zfact_pos|lia|]. apply Z.leb_le. vm_compute. reflexivity.
Qed.

(** *** Doubles as reals *)

Lemma Rabs_bounds a b : Rabs a <= b -> - b <= a <= b.
Proof. unfold Rabs. destruct (Rcase_abs a); lra. Qed.

Lemma to_R_int n : to_R (n * F64.one) = IZR n.
Proof.
  unfold to_R. pose proof (IZR_lt _ _ F64Facts.f64_one_pos).
  rewrite mult_IZR. field. lra.
Qed.

(** A bracket of the real value, read back on the integers. *)
Lemma bracket_of_real c a b :
  IZR a / 100000 <= to_R c <= IZR b / 100000 ->
  (a * F64.one <= 100000 * c <= b * F64.one)%Z.
Proof.
  unfold to_R. pose proof (IZR_lt _ _ F64Facts.f64_one_pos) as P.
  intros [L U].
  assert (L' : IZR a * IZR F64.one <= 100000 * IZR c).
  { apply Rmult_le_reg_r with (/ IZR F64.one); [apply Rinv_0_lt_compat; lra|].
    replace (IZR a * IZR F64.one * / IZR F64.one) with (IZR a) by (field; lra).
    replace (100000 * IZR c * / IZR F64.one) with (100000 * (IZR c / IZR F64.one))
      by (field; lra).
    lra. }
  assert (U' : 100000 * IZR c <= IZR b * IZR F64.one).
  { apply Rmult_le_reg_r with (/ IZR F64.one); [apply Rinv_0_lt_compat; lra|].
    replace (IZR b * IZR F64.one * / IZR F64.one) with (IZR b) by (field; lra).
    replace (100000 * IZR c * / IZR F64.one) with (100000 * (IZR c / IZR F64.one))
      by (field; lra).
    lra. }
  rewrite <- !mult_IZR in L', U'. split; apply le_IZR; assumption.
Qed.

Lemma real_of_bracket c a b d :
  (0 < d)%Z -> (a * F64.one <= d * c <= b * F64.one)%Z ->
  IZR a / IZR d <= to_R c <= IZR b / IZR d.
Proof.
  unfold to_R. pose proof F64Facts.f64_one_pos as P.
  intros Hd [L U]. split; apply frac_le; lia.
Qed.

(** What accuracy at 0, 2 and 4 says of the values returned. *)
Lemma accurate_0 c_sin :
  accurate_at c_sin 0 -> (- 1 * F64.one <= 100000 * c_sin 0 <= 1 * F64.one)%Z.
Proof.
  unfold accurate_at. intros H. apply bracket_of_real.
  replace (to_R 0) with 0 in H by (unfold to_R; field; pose proof (IZR_lt _ _ F64Facts.f64_one_pos); lra).
  rewrite sin_0 in H. apply Rabs_bounds in H. lra.
Qed.

Lemma accurate_2 c_sin :
  accurate_at c_sin (2 * F64.one) ->
  (90928 * F64.one <= 100000 * c_sin (2 * F64.one) <= 90931 * F64.one)%Z.
Proof.
  unfold accurate_at. intros H. apply bracket_of_real.
  rewrite to_R_int in H. apply Rabs_bounds in H. pose proof sin_2. lra.
Qed.

Lemma accurate_4 c_sin :
  accurate_at c_sin (4 * F64.one) ->
  (- 75682 * F64.one <= 100000 * c_sin (4 * F64.one) <= - 75679 * F64.one)%Z.
Proof.
  unfold accurate_at. intros H. apply bracket_of_real.
  rewrite to_R_int in H. apply Rabs_bounds in H. pose proof sin_4. lra.
Qed.

(** The sine used for the evaluations is accurate there. *)
Lemma sine_accurate :
  accurate_at sine 0 /\ accurate_at sine (2 * F64.one) /\ accurate_at sine (4 * F64.one).
Proof.
  destruct ColourFacts.sine_digits as (D0 & D2 & D4).
  unfold accurate_at. rewrite D0, !to_R_int.
  replace (to_R 0) with 0 by (unfold to_R; field; pose proof (IZR_lt _ _ F64Facts.f64_one_pos); lra).
  rewrite sin_0.
  pose proof (real_of_bracket _ _ _ (10 ^ 15) ltac:(reflexivity) D2) as R2.
  pose proof (real_of_bracket _ _ _ (10 ^ 15) ltac:(reflexivity) D4) as R4.
  change (10 ^ 15)%Z with 1000000000000000%Z in R2, R4.
  pose proof sin_2. pose proof sin_4.
  repeat split; apply Rabs_le; lra.
Qed.

End SineFacts.

Section Libm.

(** The C library's [sin], of which only the range is assumed. *)
Variable c_sin : Z -> Z.
Hypothesis c_sin_range : forall v, - F64.one <= c_sin v <= F64.one.

(** Every colour component is computed without error and is a byte. *)
Lemma cycle_range (a : Z) : exists c, cycle c_sin a = Some c /\ 0 <= c <= 255.
Proof using c_sin_range.
  rewrite ColourFacts.cycle_cycle_of.
  destruct (ColourFacts.cycle_of_total (c_sin (F64.of_float a))) as [c E].
  exists c. split; [exact E|].
  exact (ColourFacts.cycle_of_range _ _ (c_sin_range _) E).
Qed.

(** C7: for every value of the time counter the raster bar is drawn, 75
    pixels high, with its top edge [bar.y] between 0 and
    [SCREEN_HEIGHT - bar.h]. *)
Theorem C7_bar_stays_on_screen (t : Z) :
  exists bar,
    render_raster_bar c_sin t = Some bar
    /\ SDL.h (bar_rect bar) = SCREEN_HEIGHT / 8
    /\ 0 <= SDL.y (bar_rect bar) <= SCREEN_HEIGHT - SDL.h (bar_rect bar).
Proof using c_sin_range.
  unfold render_raster_bar.
  destruct (cycle_range (F32.mul t (F32.lit 8 10))) as [r [Er _]].
  destruct (cycle_range (F32.add (F32.mul t (F32.lit 8 10)) (F32.lit 2 1))) as [g [Eg _]].
  destruct (cycle_range (F32.add (F32.mul t (F32.lit 8 10)) (F32.lit 4 1))) as [b [Eb _]].
  rewrite Er, Eg, Eb. cbv [bind].
  destruct (ColourFacts.wave_of_total (c_sin (F64.of_float t))) as [h Eh].
  pose proof (ColourFacts.wave_of_range _ _ (c_sin_range _) Eh) as Rh.
  rewrite Eh. eexists. split; [reflexivity|].
  cbn [bar_rect SDL.h SDL.y]. split; [reflexivity|].
  change (SCREEN_HEIGHT - SCREEN_HEIGHT / 8) with 525.
  exact (ColourFacts.scaled_range h 525 (or_intror eq_refl) Rh).
Qed.

End Libm.

Lemma C7_bar_stays_on_screen_witness :
  exists bar,
    render_raster_bar sine (F32.lit 5 100) = Some bar
    /\ SDL.h (bar_rect bar) = SCREEN_HEIGHT / 8
    /\ 0 <= SDL.y (bar_rect bar) <= SCREEN_HEIGHT - SDL.h (bar_rect bar).
Proof.
  apply (C7_bar_stays_on_screen sine ColourFacts.sine_range (F32.lit 5 100)).
Defined.

(** C6, as the program has it: at [time_counter = 0] the tint is fixed by
    the values of [sin] at 0, 2 and 4, the phase offsets.  For every [sin]
    that is within [10^-5] of the sine at these three arguments, the red
    component is 127 (the truncation of 127.5), the green one is 243 and
    the blue one is 31. *)
Theorem C6_tint_at_time_zero (c_sin : Z -> Z) (scrollX textWidth textHeight : Z) :
  accurate_at c_sin 0 ->
  accurate_at c_sin (2 * F64.one) ->
  accurate_at c_sin (4 * F64.one) ->
  exists sc,
    render_scroller c_sin scrollX 0 textWidth textHeight = Some sc
    /\ mod_r sc = 127 /\ mod_g sc = 243 /\ mod_b sc = 31.
Proof.
  intros H0 H2 H4.
  apply SineFacts.accurate_0 in H0.
  apply SineFacts.accurate_2 in H2.
  apply SineFacts.accurate_4 in H4.
  unfold render_scroller, cycle.
  change (F64.of_float 0) with 0.
  change (F64.of_float (F32.add 0 (F32.lit 2 1))) with (2 * F64.one).
  change (F64.of_float (F32.add 0 (F32.lit 4 1))) with (4 * F64.one).
  rewrite (ColourFacts.cycle_of_between _ (- 1) 1 127 ltac:(lia) ltac:(lia) H0)
    by (vm_compute; reflexivity).
  rewrite (ColourFacts.cycle_of_between _ 90928 90931 243 ltac:(lia) ltac:(lia) H2)
    by (vm_compute; reflexivity).
  rewrite (ColourFacts.cycle_of_between _ (- 75682) (- 75679) 31 ltac:(lia) ltac:(lia) H4)
    by (vm_compute; reflexivity).
  cbv [bind]. eexists. split; [reflexivity|].
  cbn [mod_r mod_g mod_b]. auto.
Qed.

Lemma C6_tint_at_time_zero_witness :
  exists sc,
    render_scroller sine (F32.of_int SCREEN_WIDTH) 0 400 24 = Some sc
    /\ mod_r sc = 127 /\ mod_g sc = 243 /\ mod_b sc = 31.
Proof.
  apply (C6_tint_at_time_zero sine (F32.of_int SCREEN_WIDTH) 400 24);
    apply SineFacts.sine_accurate.
Defined.

(** The claim that each component is 127 or 128 fails for green and
    blue: with a sine that is accurate at 0, 2 and 4
    ([SineFacts.sine_accurate]) the tint at [time_counter = 0] is
    (127, 243, 31). *)
Lemma C6_counterexample :
  match render_scroller sine (F32.of_int SCREEN_WIDTH) 0 400 24 with
  | None => False
  | Some sc =>
      (mod_r sc, mod_g sc, mod_b sc) = (127, 243, 31)
      /\ ~ (mod_g sc = 127 \/ mod_g sc = 128)
      /\ ~ (mod_b sc = 127 \/ mod_b sc = 128)
  end.
Proof.
  vm_compute. repeat split; intros [H|H]; discriminate H.
Qed.

(** * Further properties of the star field *)

Module StarMore.
Import IEEE IEEEFacts F32Facts StarFacts.

#[local] Abbreviation one := F32.one.

(** Whole numbers below [2^24] in magnitude are [float]s. *)
Lemma round_whole n : Z.abs n < 2 ^ 24 -> F32.round (n * one) 1 = n * one.
Proof.
  intros H. rewrite <- (Z.mul_1_r (n * one)) at 1.
  apply f32_round_exact; [|lia].
  unfold F32.one. apply f32_format_small; [lia|exact H].
Qed.

Lemma of_int_whole n : Z.abs n < 2 ^ 24 -> F32.of_int n = n * one.
Proof. apply round_whole. Qed.

Lemma sub_whole a b :
  Z.abs (a - b) < 2 ^ 24 -> F32.sub (a * one) (b * one) = (a - b) * one.
Proof.
  intros H. unfold F32.sub.
  replace (a * one - b * one) with ((a - b) * one) by ring.
  now apply round_whole.
Qed.

(** [(float)(r % STAR_SPREAD) - (STAR_SPREAD / 2)] *)
Lemma centred_coordinate r :
  0 <= r ->
  F32.sub (F32.of_int (r mod STAR_SPREAD)) (F32.of_int (STAR_SPREAD / 2))
  = (r mod STAR_SPREAD - 256) * one
  /\ - 256 <= r mod STAR_SPREAD - 256 <= 255.
Proof.
  intros Hr.
  pose proof (Z.mod_pos_bound r STAR_SPREAD ltac:(reflexivity)) as M.
  unfold STAR_SPREAD in *.
  change (512 / 2) with 256.
  rewrite !of_int_whole by (change (2 ^ 24) with 16777216; lia).
  rewrite sub_whole by (change (2 ^ 24) with 16777216; lia).
  split; [reflexivity|lia].
Qed.

Lemma init_star_xy g s g' : init_star g = Some (s, g') -> xy_in_range s.
Proof.
  unfold init_star, rand. cbv beta iota.
  destruct (F32.div _ _); cbv [bind]; [|intros H; discriminate H].
  intros H. apply Some_inj in H.
  assert (E : s = fst (s, g')) by reflexivity. rewrite <- H in E. cbn [fst] in E.
  subst s. unfold xy_in_range. cbn [x y].
  destruct (centred_coordinate (Z.of_N (g 0%nat)) (N2Z.is_nonneg _)) as [Ex Bx].
  destruct (centred_coordinate (Z.of_N (g 1%nat)) (N2Z.is_nonneg _)) as [Ey By].
  eexists _, _. split; [exact Ex|]. split; [exact Ey|]. lia.
Qed.

Lemma update_star_xy s g : xy_in_range s -> xy_in_range (fst (update_star s g)).
Proof.
  intros H.
  destruct (update_star_cases s g) as [[_ ->]|[_ ->]]; cbn [fst]; [|exact H].
  unfold xy_in_range, respawn. cbn [x y].
  destruct (centred_coordinate (Z.of_N (g 0%nat)) (N2Z.is_nonneg _)) as [Ex Bx].
  destruct (centred_coordinate (Z.of_N (g 1%nat)) (N2Z.is_nonneg _)) as [Ey By].
  eexists _, _. split; [exact Ex|]. split; [exact Ey|]. lia.
Qed.

Lemma init_stars_loop_xy n g l g' :
  init_stars_loop n g = Some (l, g') -> Forall xy_in_range l.
Proof.
  revert g l g'. induction n as [|n IH]; intros g l g'; cbn [init_stars_loop].
  - intros H. apply Some_inj in H.
    assert (E : l = fst (l, g')) by reflexivity. rewrite <- H in E. subst l. constructor.
  - destruct (init_star g) as [[s g1]|] eqn:E; cbv [bind]; [|intros H; discriminate H].
    cbn [snd fst].
    destruct (init_stars_loop n g1) as [[l1 g2]|] eqn:E2; [|intros H; discriminate H].
    cbn [snd fst]. intros H. apply Some_inj in H.
    assert (El : l = fst (l, g')) by reflexivity. rewrite <- H in El. cbn [fst] in El.
    subst l. constructor; [eapply init_star_xy; eassumption|eapply IH; eassumption].
Qed.

Lemma init_stars_xy g l g' : init_stars g = Some (l, g') -> Forall xy_in_range l.
Proof.
  unfold init_stars. intros E.
  exact (init_stars_loop_xy NUM_STARS g l g' E).
Qed.

Lemma update_stars_length l : forall g, length (fst (update_stars l g)) = length l.
Proof.
  induction l as [|s rest IH]; intros g; [reflexivity|].
  rewrite update_stars_cons. cbn [fst length]. now rewrite IH.
Qed.

Lemma update_stars_n_length n : forall l g,
  length (fst (update_stars_n n l g)) = length l.
Proof.
  induction n as [|n IH]; intros l g; [reflexivity|].
  rewrite update_stars_n_S, IH. apply update_stars_length.
Qed.

Lemma update_stars_n_xy n : forall l g,
  Forall xy_in_range l -> Forall xy_in_range (fst (update_stars_n n l g)).
Proof.
  induction n as [|n IH]; intros l g F; [exact F|].
  rewrite update_stars_n_S. apply IH.
  apply (update_stars_Forall xy_in_range xy_in_range); [|exact F].
  intros s g0. apply update_star_xy.
Qed.

End StarMore.

(** X1: [init_stars] places every star at whole-number coordinates, [x]
    and [y] between -256 and 255; every respawn does the same, so after
    any number of calls of [update_stars] the array still holds
    [NUM_STARS] stars with such coordinates. *)
Theorem X1_positions_stay_in_the_cube (g : rng) :
  exists stars0 g0,
    init_stars g = Some (stars0, g0)
    /\ forall n,
         let now := fst (update_stars_n n stars0 g0) in
         length now = NUM_STARS /\ Forall xy_in_range now.
Proof.
  destruct (StarFacts.init_stars_total g) as [stars0 [g0 E]].
  pose proof (StarFacts.init_stars_length _ _ _ E) as Len.
  pose proof (StarMore.init_stars_xy _ _ _ E) as XY.
  exists stars0, g0. split; [exact E|]. intros n. cbv zeta. split.
  - rewrite StarMore.update_stars_n_length. exact Len.
  - apply StarMore.update_stars_n_xy. exact XY.
Qed.

Module RenderMore.
Import IEEE IEEEFacts F32Facts StarFacts StarMore.

#[local] Abbreviation one := F32.one.

(** What one star contributes: nothing, or one rectangle on the screen. *)
Lemma render_star_rects s rects :
  z s <= F32.of_int STAR_SPREAD -> render_star s = Some rects ->
  Forall rect_on_screen rects /\ (length rects <= 1)%nat.
Proof.
  intros Hz. unfold render_star, F32.ltb. rewrite f32_of_int_0.
  destruct (Z.ltb_spec 0 (z s)) as [Hp|Hp].
  2:{ intros H. apply Some_inj in H. subst rects. split; [constructor|cbn; lia]. }
  destruct (F32.div (F32.lit 128 1) (z s)) as [k|]; cbv [bind]; [|intros H; discriminate H].
  set (px := F32.to_int (F32.add (F32.mul (x s) k) (F32.of_int (SCREEN_WIDTH / 2)))).
  set (py := F32.to_int (F32.add (F32.mul (y s) k) (F32.of_int (SCREEN_HEIGHT / 2)))).
  destruct ((0 <=? px) && (px <? SCREEN_WIDTH) && (0 <=? py) && (py <? SCREEN_HEIGHT)) eqn:B.
  2:{ intros H. apply Some_inj in H. subst rects. split; [constructor|cbn; lia]. }
  destruct (star_size (z s)) as [sz|] eqn:Es; [|intros H; discriminate H].
  intros H. apply Some_inj in H. subst rects.
  split; [|cbn; lia]. constructor; [|constructor].
  apply andb_prop in B. destruct B as [B B4].
  apply andb_prop in B. destruct B as [B B3].
  apply andb_prop in B. destruct B as [B1 B2].
  apply Z.leb_le in B1, B3. apply Z.ltb_lt in B2, B4.
  pose proof (star_size_bounds (z s) sz ltac:(lia) Es) as [L U].
  pose proof (f32_to_int_mono _ _ L) as T0.
  pose proof (f32_to_int_mono _ _ U) as T1.
  change (F32.to_int 0) with 0 in T0.
  change (F32.to_int (F32.of_int 3)) with 3 in T1.
  unfold rect_on_screen. cbn [SDL.x SDL.y SDL.w SDL.h]. lia.
Qed.

Lemma render_stars_rects l : forall rects,
  Forall (fun s => z s <= F32.of_int STAR_SPREAD) l ->
  render_stars l = Some rects ->
  Forall rect_on_screen rects /\ (length rects <= length l)%nat.
Proof.
  induction l as [|s rest IH]; intros rects F; cbn [render_stars].
  - intros H. apply Some_inj in H. subst rects. split; [constructor|cbn; lia].
  - inversion F as [|s0 l0 Hs Hrest]; subst.
    destruct (render_star s) as [r|] eqn:Er; cbv [bind]; [|intros H; discriminate H].
    destruct (render_stars rest) as [rs|] eqn:Ers; [|intros H; discriminate H].
    intros H. apply Some_inj in H. subst rects.
    destruct (render_star_rects s r Hs Er) as [F1 L1].
    destruct (IH rs Hrest eq_refl) as [F2 L2].
    split; [apply Forall_app; split; assumption|].
    rewrite length_app. cbn [length]. lia.
Qed.

(** A star at depth [STAR_SPREAD], as a respawn leaves it. *)
Lemma respawned_consts :
  F32.div (F32.lit 128 1) (F32.of_int STAR_SPREAD) = Some (2 ^ 147)
  /\ F32.of_int (SCREEN_WIDTH / 2) = 1600 * 2 ^ 147
  /\ F32.of_int (SCREEN_HEIGHT / 2) = 1200 * 2 ^ 147
  /\ star_size (F32.of_int STAR_SPREAD) = Some 0
  /\ one = 4 * 2 ^ 147.
Proof. vm_compute. repeat split. Qed.

(** [(int)(c * 0.25f + m)] for a whole [c] and a whole [m]: exact. *)
Lemma project_quarter c m :
  Z.abs c < 2 ^ 23 -> 0 <= m < 2 ^ 20 -> 0 <= c + 4 * m ->
  F32.to_int (F32.add (F32.mul (c * one) (2 ^ 147)) (m * (4 * 2 ^ 147)))
  = (c + 4 * m) / 4.
Proof.
  intros Hc Hm Hpos.
  assert (P : 0 < 2 ^ 147) by (apply Z.pow_pos_nonneg; lia).
  assert (O : one = 4 * 2 ^ 147) by (vm_compute; reflexivity).
  assert (M : F32.mul (c * one) (2 ^ 147) = c * 2 ^ 147).
  { unfold F32.mul.
    replace (c * one * 2 ^ 147) with ((c * 2 ^ 147) * one) by ring.
    apply f32_round_exact; [|apply f32_one_pos].
    apply f32_format_small; [lia|]. change (2 ^ F32.prec) with (2 ^ 24).
    change (2 ^ 24) with 16777216. change (2 ^ 23) with 8388608 in Hc. lia. }
  rewrite M. unfold F32.add.
  replace (c * 2 ^ 147 + m * (4 * 2 ^ 147)) with ((c + 4 * m) * 2 ^ 147 * 1) by ring.
  rewrite f32_round_exact; [|
    apply f32_format_small; [lia|]; change (2 ^ F32.prec) with 16777216;
    change (2 ^ 23) with 8388608 in Hc; change (2 ^ 20) with 1048576 in Hm; lia | lia].
  unfold F32.to_int. rewrite O.
  rewrite Z.quot_div_nonneg by nia.
  rewrite Z.div_mul_cancel_r by lia. reflexivity.
Qed.

End RenderMore.

(** X2: in every frame after [init_stars], [render_stars] succeeds and
    fills at most [NUM_STARS] rectangles, each a square of side 0 to 3
    whose corner is a pixel of the 800 x 600 window. *)
Theorem X2_stars_are_drawn_on_screen (g : rng) :
  exists stars0 g0,
    init_stars g = Some (stars0, g0)
    /\ forall n, exists rects,
         render_stars (fst (update_stars_n n stars0 g0)) = Some rects
         /\ Forall rect_on_screen rects
         /\ (length rects <= NUM_STARS)%nat.
Proof.
  destruct (StarFacts.init_stars_total g) as [stars0 [g0 E]].
  pose proof (StarFacts.init_stars_length _ _ _ E) as Len.
  pose proof (StarFacts.init_stars_inv _ _ _ E) as Inv.
  exists stars0, g0. split; [exact E|]. intros n.
  destruct (StarFacts.render_stars_total (fst (update_stars_n n stars0 g0))) as [rects R].
  exists rects. split; [exact R|].
  pose proof (StarFacts.update_stars_n_inv n stars0 g0 Inv) as F.
  assert (F' : Forall (fun s => z s <= F32.of_int STAR_SPREAD)
                      (fst (update_stars_n n stars0 g0))).
  { eapply Forall_impl; [|exact F]. intros s [[_ H] _]. exact H. }
  destruct (RenderMore.render_stars_rects _ _ F' R) as [On L].
  split; [exact On|].
  rewrite StarMore.update_stars_n_length, Len in L. exact L.
Qed.

(** X3: a star that [update_stars] has just respawned is drawn as a
    rectangle of width and height 0, at the pixel
    ((rx mod 512 + 1344) / 4, (ry mod 512 + 944) / 4) for the two values
    [rx], [ry] of [rand()] the respawn consumed: within 64 pixels of the
    centre of the window. *)
Theorem X3_respawned_star_is_an_empty_rectangle (s : Star) (g : rng)
  (Hz : F32.sub (z s) (speed s) <= 0) :
  let px := (Z.of_N (g 0%nat) mod STAR_SPREAD + 1344) / 4 in
  let py := (Z.of_N (g 1%nat) mod STAR_SPREAD + 944) / 4 in
  render_star (fst (update_star s g))
  = Some [ {| SDL.x := px; SDL.y := py; SDL.w := 0; SDL.h := 0 |} ]
  /\ 336 <= px <= 463 /\ 236 <= py <= 363.
Proof.
  cbv zeta. rewrite (StarFacts.update_star_respawn s g Hz). cbn [fst].
  unfold render_star, respawn. cbn [x y z].
  destruct (StarMore.centred_coordinate (Z.of_N (g 0%nat)) (N2Z.is_nonneg _)) as [Ex Bx].
  destruct (StarMore.centred_coordinate (Z.of_N (g 1%nat)) (N2Z.is_nonneg _)) as [Ey By].
  destruct RenderMore.respawned_consts as [Ek [Ew [Eh [Es Eo]]]].
  set (i := Z.of_N (g 0%nat) mod STAR_SPREAD) in *.
  set (j := Z.of_N (g 1%nat) mod STAR_SPREAD) in *.
  assert (Px : F32.to_int (F32.add (F32.mul ((i - 256) * F32.one) (2 ^ 147))
                                   (1600 * 2 ^ 147)) = (i + 1344) / 4).
  { replace (1600 * 2 ^ 147) with (400 * (4 * 2 ^ 147)) by ring.
    rewrite RenderMore.project_quarter; [f_equal; ring| | |].
    - change (2 ^ 23) with 8388608. lia.
    - change (2 ^ 20) with 1048576. lia.
    - lia. }
  assert (Py : F32.to_int (F32.add (F32.mul ((j - 256) * F32.one) (2 ^ 147))
                                   (1200 * 2 ^ 147)) = (j + 944) / 4).
  { replace (1200 * 2 ^ 147) with (300 * (4 * 2 ^ 147)) by ring.
    rewrite RenderMore.project_quarter; [f_equal; ring| | |].
    - change (2 ^ 23) with 8388608. lia.
    - change (2 ^ 20) with 1048576. lia.
    - lia. }
  assert (Bi : 336 <= (i + 1344) / 4 <= 463).
  { split; [apply Z.div_le_lower_bound; lia|].
    apply Z.lt_succ_r. apply Z.div_lt_upper_bound; lia. }
  assert (Bj : 236 <= (j + 944) / 4 <= 363).
  { split; [apply Z.div_le_lower_bound; lia|].
    apply Z.lt_succ_r. apply Z.div_lt_upper_bound; lia. }
  split; [|split; assumption].
  assert (L : F32.ltb (F32.of_int 0) (F32.of_int STAR_SPREAD) = true).
  { vm_compute. reflexivity. }
  rewrite L, Ek. cbv [bind]. rewrite Ex, Ey, Ew, Eh, Px, Py, Es.
  change (F32.to_int 0) with 0.
  assert (C : (0 <=? (i + 1344) / 4) && ((i + 1344) / 4 <? SCREEN_WIDTH)
              && (0 <=? (j + 944) / 4) && ((j + 944) / 4 <? SCREEN_HEIGHT) = true).
  { unfold SCREEN_WIDTH, SCREEN_HEIGHT.
    repeat (apply andb_true_intro; split);
      try (apply Z.leb_le; lia); apply Z.ltb_lt; lia. }
  rewrite C. reflexivity.
Qed.

Lemma X3_respawned_star_is_an_empty_rectangle_witness :
  let s := {| x := 0; y := 0; z := F32.one; speed := F32.one |} in
  F32.sub (z s) (speed s) <= 0
  /\ render_star (fst (update_star s lcg))
     = Some [ {| SDL.x := (Z.of_N (lcg 0%nat) mod STAR_SPREAD + 1344) / 4;
                 SDL.y := (Z.of_N (lcg 1%nat) mod STAR_SPREAD + 944) / 4;
                 SDL.w := 0; SDL.h := 0 |} ].
Proof.
  cbv zeta.
  assert (H : F32.sub (z {| x := 0; y := 0; z := F32.one; speed := F32.one |})
                      (speed {| x := 0; y := 0; z := F32.one; speed := F32.one |}) <= 0).
  { vm_compute. intros K; discriminate K. }
  split; [exact H|].
  exact (proj1 (X3_respawned_star_is_an_empty_rectangle _ lcg H)).
Defined.

Module DepthFacts.
Import IEEE IEEEFacts F32Facts StarFacts StarMore.

#[local] Abbreviation one := F32.one.

Lemma update_star_depth s g :
  z (fst (update_star s g)) = depth_run 1 (z s) (speed s).
Proof.
  cbn [depth_run]. unfold update_star.
  destruct (F32.leb (F32.sub (z s) (speed s)) (F32.of_int 0)); reflexivity.
Qed.

Lemma depth_run_shift n : forall z0 sp,
  depth_run (S n) z0 sp = depth_run n (depth_run 1 z0 sp) sp.
Proof.
  induction n as [|n IH]; intros z0 sp; [reflexivity|].
  change (depth_run (S (S n)) z0 sp)
    with (let z1 := F32.sub (depth_run (S n) z0 sp) sp in
          if F32.leb z1 (F32.of_int 0) then F32.of_int STAR_SPREAD else z1).
  rewrite IH. reflexivity.
Qed.

Lemma Forall2_compose {A} (R S T : A -> A -> Prop) :
  (forall a b c, R a b -> S b c -> T a c) ->
  forall l1 l2 l3, Forall2 R l1 l2 -> Forall2 S l2 l3 -> Forall2 T l1 l3.
Proof.
  intros H l1 l2 l3 F. revert l3.
  induction F as [|a b l1 l2 Hab F IH]; intros l3 G; inversion G; subst; constructor.
  - eapply H; eassumption.
  - apply IH. assumption.
Qed.

Lemma Forall2_refl_on {A} (R : A -> A -> Prop) :
  (forall a, R a a) -> forall l, Forall2 R l l.
Proof. intros H l. induction l; constructor; auto. Qed.

Lemma Forall2_nth_error {A} (R : A -> A -> Prop) l l' :
  Forall2 R l l' ->
  forall i a, nth_error l i = Some a ->
  exists b, nth_error l' i = Some b /\ R a b.
Proof.
  intros F. induction F as [|a b l l' Hab F IH]; intros i c.
  - destruct i; intros H; discriminate H.
  - destruct i as [|i]; cbn [nth_error].
    + intros H. apply Some_inj in H. subst c. eauto.
    + apply IH.
Qed.

(** Each star's depth and speed after [n] calls, whatever [rand()] gives. *)
Lemma update_stars_n_depth n : forall l g,
  Forall2 (fun s s' => z s' = depth_run n (z s) (speed s) /\ speed s' = speed s)
          l (fst (update_stars_n n l g)).
Proof.
  induction n as [|n IH]; intros l g.
  - cbn [update_stars_n fst]. apply Forall2_refl_on. intros a. split; reflexivity.
  - rewrite update_stars_n_S.
    eapply Forall2_compose;
      [|apply (update_stars_Forall2 (fun _ => True)
                 (fun s s' => z s' = depth_run 1 (z s) (speed s) /\ speed s' = speed s))
       |apply IH].
    + cbv beta. intros a b c [Hz Hs] [Hz' Hs'].
      split; [|rewrite Hs'; exact Hs].
      rewrite Hz', Hz, Hs. symmetry. apply depth_run_shift.
    + intros s g0 _. split; [apply update_star_depth|apply update_star_speed].
    + apply Forall_forall. intros; exact I.
Qed.

Section OneStar.
Variables z0 sp : Z.
Hypothesis Hz0 : 0 <= z0 <= 512 * one.
Hypothesis Hsp : one <= 5 * sp /\ 1000 * sp <= 695 * one.

Lemma depth_run_range n : 0 <= depth_run n z0 sp <= 512 * one.
Proof using Hz0 Hsp.
  induction n as [|n IH]; [exact Hz0|].
  cbn [depth_run]. cbv zeta. unfold F32.leb. rewrite f32_of_int_0, f32_of_int_spread.
  pose proof f32_one_pos as P. pose proof one_split as O.
  assert (P' : 0 < 2 ^ 135) by (apply Z.pow_pos_nonneg; lia).
  pose proof (round_near (depth_run n z0 sp - sp) ltac:(lia)) as N.
  fold (F32.sub (depth_run n z0 sp) sp) in N.
  destruct (Z.leb_spec (F32.sub (depth_run n z0 sp) sp) 0); lia.
Qed.

Lemma sub_near n :
  2 * Z.abs (F32.sub (depth_run n z0 sp) sp - (depth_run n z0 sp - sp)) <= 2 ^ 135.
Proof using Hz0 Hsp.
  pose proof (depth_run_range n) as R.
  pose proof f32_one_pos as P.
  apply round_near. lia.
Qed.

Lemma depth_run_S n :
  (F32.sub (depth_run n z0 sp) sp <= 0 /\ depth_run (S n) z0 sp = 512 * one)
  \/ (0 < F32.sub (depth_run n z0 sp) sp
      /\ depth_run (S n) z0 sp = F32.sub (depth_run n z0 sp) sp).
Proof.
  cbn [depth_run]. cbv zeta. unfold F32.leb. rewrite f32_of_int_0, f32_of_int_spread.
  destruct (Z.leb_spec (F32.sub (depth_run n z0 sp) sp) 0); [left|right]; split;
    first [assumption|reflexivity].
Qed.

(** Until the first respawn the depth falls by at least
    [0.2 - 2^-15] in each call. *)
Lemma chase k :
  (exists j, (j < k)%nat /\ F32.sub (depth_run j z0 sp) sp <= 0)
  \/ 5 * depth_run k z0 sp + Z.of_nat k * (32763 * 2 ^ 134) <= 5 * z0.
Proof using Hz0 Hsp.
  induction k as [|k [[j [Hj Hr]]|IH]].
  - right. cbn [depth_run]. lia.
  - left. exists j. split; [lia|exact Hr].
  - destruct (depth_run_S k) as [[Hr _]|[Hr E]].
    + left. exists k. split; [lia|exact Hr].
    + right. rewrite E. pose proof (sub_near k) as N.
      pose proof one_split as O.
      assert (O' : 2 ^ 135 = 2 * 2 ^ 134) by reflexivity.
      assert (P' : 0 < 2 ^ 134) by (apply Z.pow_pos_nonneg; lia).
      rewrite Nat2Z.inj_succ. lia.
Qed.

Lemma respawn_within :
  exists k, (1 <= k <= 2561)%nat /\ depth_run k z0 sp = 512 * one.
Proof using Hz0 Hsp.
  destruct (chase 2561) as [[j [Hj Hr]]|B].
  - exists (S j). split; [lia|].
    destruct (depth_run_S j) as [[_ E]|[Hr' _]]; [exact E|lia].
  - exfalso. pose proof (depth_run_range 2561) as R.
    pose proof one_split as O.
    assert (P' : 0 < 2 ^ 134) by (apply Z.pow_pos_nonneg; lia).
    assert (O' : 2 ^ 135 = 2 * 2 ^ 134) by reflexivity.
    change (Z.of_nat 2561) with 2561 in B. lia.
Qed.

(** From depth [STAR_SPREAD] the depth falls by at most
    [0.695 + 2^-15] in each call. *)
Lemma survive k :
  z0 = 512 * one -> (k <= 736)%nat ->
  0 < depth_run k z0 sp
  /\ 512000 * one <= 1000 * depth_run k z0 sp + Z.of_nat k * (22774760 * 2 ^ 134)
  /\ ((1 <= k)%nat -> depth_run k z0 sp < 512 * one).
Proof using Hz0 Hsp.
  intros E0. pose proof f32_one_pos as P. pose proof one_split as O.
  assert (O' : 2 ^ 135 = 2 * 2 ^ 134) by reflexivity.
  assert (P' : 0 < 2 ^ 134) by (apply Z.pow_pos_nonneg; lia).
  induction k as [|k IH]; intros Hk.
  - cbn [depth_run]. rewrite E0. lia.
  - destruct (IH ltac:(lia)) as [Pos [Low _]].
    pose proof (sub_near k) as N. pose proof (depth_run_range k) as R.
    rewrite Nat2Z.inj_succ.
    assert (K : Z.of_nat k * 2 ^ 134 <= 735 * 2 ^ 134)
      by (apply Z.mul_le_mono_nonneg_r; lia).
    destruct (depth_run_S k) as [[Hr _]|[Hr E]]; [lia|].
    rewrite E. lia.
Qed.
End OneStar.

Lemma star_inv_parts s :
  star_inv s ->
  0 <= z s <= 512 * one /\ one <= 5 * speed s /\ 1000 * speed s <= 695 * one.
Proof.
  intros [H1 [H2 H3]]. rewrite f32_of_int_spread in H1. repeat split; tauto.
Qed.

End DepthFacts.

(** X4: the depths and speeds that [update_stars] leaves do not depend on
    what [rand()] returns: two runs from the same array with different
    random streams agree on [z] and [speed] of every star, and [speed] is
    the star's initial one. *)
Theorem X4_depths_do_not_depend_on_rand (n : nat) (l : list Star) (g g' : rng) :
  Forall2 (fun s s' => z s = z s' /\ speed s = speed s')
          (fst (update_stars_n n l g)) (fst (update_stars_n n l g'))
  /\ Forall2 (fun s s' => speed s' = speed s) l (fst (update_stars_n n l g)).
Proof.
  pose proof (DepthFacts.update_stars_n_depth n l g) as F.
  pose proof (DepthFacts.update_stars_n_depth n l g') as F'.
  split.
  - apply Forall2_flip in F.
    eapply DepthFacts.Forall2_compose; [|exact F|exact F'].
    cbv beta. intros a b c [Hz Hs] [Hz' Hs']. split; congruence.
  - eapply Forall2_impl; [|exact F]. cbv beta. intros a b [_ H]. exact H.
Qed.

(** X5: every star is respawned at least once in any 2561 successive
    calls of [update_stars]: from a depth in [0, STAR_SPREAD] and an
    initial speed, some call among the next 2561 leaves the star at depth
    [STAR_SPREAD]. *)
Theorem X5_every_star_respawns (l : list Star) (g : rng) (i : nat) (s : Star)
  (Hi : nth_error l i = Some s) (Hs : star_inv s) :
  exists k s',
    (1 <= k <= 2561)%nat
    /\ nth_error (fst (update_stars_n k l g)) i = Some s'
    /\ z s' = F32.of_int STAR_SPREAD.
Proof.
  destruct (DepthFacts.star_inv_parts s Hs) as [Hz Hsp].
  destruct (DepthFacts.respawn_within (z s) (speed s) Hz Hsp) as [k [Hk E]].
  destruct (DepthFacts.Forall2_nth_error _ _ _
              (DepthFacts.update_stars_n_depth k l g) i s Hi) as [s' [Hn [Hd _]]].
  exists k, s'. split; [exact Hk|]. split; [exact Hn|].
  rewrite Hd, E. symmetry. apply F32Facts.f32_of_int_spread.
Qed.

(** X6: a star that starts at depth [STAR_SPREAD] (as a respawn leaves it)
    is not respawned by the next 736 calls of [update_stars]: after each
    of them its depth is strictly between 0 and [STAR_SPREAD]. *)
Theorem X6_respawned_star_lives_736_calls (l : list Star) (g : rng) (i : nat)
  (s : Star) (k : nat)
  (Hi : nth_error l i = Some s)
  (Hz : z s = F32.of_int STAR_SPREAD) (Hs : speed_in_range s)
  (Hk : (1 <= k <= 736)%nat) :
  exists s',
    nth_error (fst (update_stars_n k l g)) i = Some s'
    /\ 0 < z s' < F32.of_int STAR_SPREAD.
Proof.
  rewrite F32Facts.f32_of_int_spread in *.
  pose proof F32Facts.f32_one_pos as P.
  destruct (DepthFacts.survive (z s) (speed s) ltac:(lia) Hs k Hz ltac:(lia))
    as [Pos [_ Lt]].
  destruct (DepthFacts.Forall2_nth_error _ _ _
              (DepthFacts.update_stars_n_depth k l g) i s Hi) as [s' [Hn [Hd _]]].
  exists s'. split; [exact Hn|]. rewrite Hd. split; [exact Pos|apply Lt; lia].
Qed.

Lemma far_star_inv : star_inv far_star.
Proof.
  unfold star_inv, speed_in_range, far_star. cbn [z speed].
  vm_compute. repeat split; intros H; discriminate H.
Qed.

Lemma X5_every_star_respawns_witness :
  nth_error [far_star] 0 = Some far_star /\ star_inv far_star
  /\ exists k s',
       (1 <= k <= 2561)%nat
       /\ nth_error (fst (update_stars_n k [far_star] lcg)) 0 = Some s'
       /\ z s' = F32.of_int STAR_SPREAD.
Proof.
  split; [reflexivity|]. split; [exact far_star_inv|].
  exact (X5_every_star_respawns [far_star] lcg 0 far_star eq_refl far_star_inv).
Defined.

Lemma X6_respawned_star_lives_736_calls_witness :
  nth_error [far_star] 0 = Some far_star
  /\ z far_star = F32.of_int STAR_SPREAD /\ speed_in_range far_star
  /\ (1 <= 736 <= 736)%nat
  /\ exists s',
       nth_error (fst (update_stars_n 736 [far_star] lcg)) 0 = Some s'
       /\ 0 < z s' < F32.of_int STAR_SPREAD.
Proof.
  split; [reflexivity|]. split; [reflexivity|].
  split; [exact (proj2 far_star_inv)|]. split; [lia|].
  exact (X6_respawned_star_lives_736_calls [far_star] lcg 0 far_star 736
           eq_refl eq_refl (proj2 far_star_inv) ltac:(lia)).
Defined.

Module RandFacts.
Import StarFacts.

Lemma update_star_rand s g i :
  snd (update_star s g) i = g ((if respawning s then 2 else 0) + i)%nat.
Proof.
  unfold update_star, respawning, rand.
  destruct (F32.leb (F32.sub (z s) (speed s)) (F32.of_int 0)); reflexivity.
Qed.

Lemma respawns_cons s rest :
  respawns (s :: rest) = ((if respawning s then 1 else 0) + respawns rest)%nat.
Proof.
  unfold respawns. cbn [filter]. destruct (respawning s); reflexivity.
Qed.

Lemma update_stars_rand l : forall g i,
  snd (update_stars l g) i = g (2 * respawns l + i)%nat.
Proof.
  induction l as [|s rest IH]; intros g i; [reflexivity|].
  rewrite update_stars_cons. cbn [snd]. rewrite IH, update_star_rand, respawns_cons.
  f_equal. destruct (respawning s); lia.
Qed.

Lemma respawns_le l : (respawns l <= length l)%nat.
Proof. unfold respawns. apply filter_length_le. Qed.

(** [init_star] reads four values and nothing else. *)
Lemma init_star_ext g h :
  (forall i, (i < 4)%nat -> g i = h i) ->
  option_map fst (init_star g) = option_map fst (init_star h).
Proof.
  intros H. unfold init_star, rand. cbv beta iota.
  rewrite (H 0%nat), (H 1%nat), (H 2%nat), (H 3%nat) by lia.
  destruct (F32.div _ _); reflexivity.
Qed.

Lemma init_star_rand g s g' :
  init_star g = Some (s, g') -> forall i, g' i = g (4 + i)%nat.
Proof.
  unfold init_star, rand. cbv beta iota.
  destruct (F32.div _ _); cbv [bind]; [|intros H; discriminate H].
  intros H. apply Some_inj in H.
  assert (E : g' = snd (s, g')) by reflexivity. rewrite <- H in E. cbn [snd] in E.
  subst g'. reflexivity.
Qed.

Lemma init_stars_loop_rand n : forall g l g',
  init_stars_loop n g = Some (l, g') ->
  (forall i, g' i = g (4 * n + i)%nat)
  /\ forall k s, nth_error l k = Some s ->
       option_map fst (init_star (fun i => g (4 * k + i)%nat)) = Some s.
Proof.
  induction n as [|n IH]; intros g l g'; cbn [init_stars_loop].
  - intros H. apply Some_inj in H.
    assert (E : l = fst (l, g')) by reflexivity.
    assert (E' : g' = snd (l, g')) by reflexivity.
    rewrite <- H in E, E'. cbn [fst snd] in E, E'. subst l g'.
    split; [reflexivity|]. intros [|k] s K; discriminate K.
  - destruct (init_star g) as [[s g1]|] eqn:E; cbv [bind]; [|intros H; discriminate H].
    cbn [snd fst].
    destruct (init_stars_loop n g1) as [[l1 g2]|] eqn:E2; [|intros H; discriminate H].
    intros H. apply Some_inj in H.
    assert (El : l = fst (l, g')) by reflexivity.
    assert (Eg : g' = snd (l, g')) by reflexivity.
    rewrite <- H in El, Eg. cbn [fst snd] in El, Eg. subst l g'.
    destruct (IH _ _ _ E2) as [R N].
    pose proof (init_star_rand _ _ _ E) as R1.
    split.
    + intros i. rewrite R, R1. f_equal. lia.
    + intros [|k] s' K; cbn [nth_error] in K.
      * apply Some_inj in K. subst s'.
        rewrite (init_star_ext _ g) by (intros; f_equal; lia).
        rewrite E. reflexivity.
      * rewrite <- (N k s' K). apply init_star_ext.
        intros i _. rewrite R1. f_equal. lia.
Qed.

Lemma init_stars_rand g l g' :
  init_stars g = Some (l, g') ->
  (forall i, g' i = g (4 * NUM_STARS + i)%nat)
  /\ forall k s, nth_error l k = Some s ->
       option_map fst (init_star (fun i => g (4 * k + i)%nat)) = Some s.
Proof.
  unfold init_stars. intros E.
  exact (init_stars_loop_rand NUM_STARS g l g' E).
Qed.

End RandFacts.

(** X7: one call of [update_stars] takes exactly two values of [rand()]
    for each star it respawns and none for the others: the values left
    afterwards are the old ones from position [2 * respawns] on, at most
    [2 * NUM_STARS] further for an array of [NUM_STARS] stars. *)
Theorem X7_update_stars_takes_two_rand_per_respawn (l : list Star) (g : rng) :
  (forall i, snd (update_stars l g) i = g (2 * respawns l + i)%nat)
  /\ (respawns l <= length l)%nat.
Proof.
  split; [intros i; apply RandFacts.update_stars_rand|apply RandFacts.respawns_le].
Qed.

(** X8: [init_stars] takes exactly [4 * NUM_STARS] = 2000 values of
    [rand()], and star number [k] is made from the four values at
    positions [4k] to [4k + 3], in the order x, y, z, speed. *)
Theorem X8_init_stars_takes_four_rand_per_star (g : rng) :
  exists l g',
    init_stars g = Some (l, g')
    /\ length l = NUM_STARS
    /\ (forall i, g' i = g (2000 + i)%nat)
    /\ forall k s, nth_error l k = Some s ->
         option_map fst (init_star (fun i => g (4 * k + i)%nat)) = Some s.
Proof.
  destruct (StarFacts.init_stars_total g) as [l [g' E]].
  exists l, g'. split; [exact E|].
  split; [exact (StarFacts.init_stars_length _ _ _ E)|].
  exact (RandFacts.init_stars_rand g l g' E).
Qed.

Module TimeFacts.
Import IEEE IEEEFacts F32Facts.

#[local] Abbreviation top := (2 ^ 169).
#[local] Abbreviation c := (13421773 * 2 ^ 121).

Lemma step_const : F32.lit 5 100 = c.
Proof. vm_compute. reflexivity. Qed.

Lemma top_value : F32.of_int (2 ^ 20) = top.
Proof. vm_compute. reflexivity. Qed.

Lemma time_step_top : time_step top = top.
Proof. vm_compute. reflexivity. Qed.

Lemma time_step_mono t1 t2 : t1 <= t2 -> time_step t1 <= time_step t2.
Proof. intros H. unfold time_step. apply f32_add_mono; lia. Qed.

Lemma pow_split : top = 281474976710656 * 2 ^ 121 /\ 2 ^ 145 = 16777216 * 2 ^ 121 /\ 0 < 2 ^ 121.
Proof. vm_compute. repeat split. Qed.

(** Below [2^20] a [float] is at most [2^-5] away from the exact value. *)
Lemma time_step_near t :
  0 <= t -> t + c < top -> 2 * Z.abs (time_step t - (t + c)) <= 2 ^ 145.
Proof.
  intros Ht Hc. unfold time_step, F32.add. rewrite step_const.
  destruct pow_split as [_ [_ P]].
  pose proof (f32_round_error (t + c) 1 ltac:(lia)) as E.
  rewrite Z.mul_1_r, Z.mul_1_l in E.
  eapply Z.le_trans; [exact E|].
  apply Z.pow_le_mono_r; [lia|].
  unfold ulp_exp. rewrite Z.div_1_r.
  assert (L : Z.log2 (Z.abs (t + c)) < 169).
  { apply Z.log2_lt_pow2; lia. }
  unfold F32.prec. lia.
Qed.

Lemma time_step_reach t : t <= top -> top <= t + c -> time_step t = top.
Proof.
  intros Ht Hc. apply Z.le_antisymm.
  - rewrite <- time_step_top. apply time_step_mono. exact Ht.
  - unfold time_step, F32.add. rewrite step_const.
    assert (E : F32.round (top * 1) 1 = top).
    { apply f32_round_exact; [|lia].
      change top with (1 * 2 ^ 169). apply f32_format_small; [lia|reflexivity]. }
    rewrite <- E at 1. apply f32_round_mono; lia.
Qed.

Lemma time_step_grows t :
  0 <= t <= top ->
  t <= time_step t <= top
  /\ (t < top -> time_step t = top \/ t + 5033165 * 2 ^ 121 <= time_step t).
Proof.
  intros [L U]. destruct pow_split as [T [H P]].
  assert (B : time_step t <= top).
  { rewrite <- time_step_top. apply time_step_mono. exact U. }
  destruct (Z_lt_le_dec (t + c) top) as [Lt|Ge].
  - pose proof (time_step_near t L Lt) as N. split; [lia|]. intros _. right. lia.
  - rewrite (time_step_reach t U Ge). split; [lia|]. intros _. left. reflexivity.
Qed.

Lemma climb n :
  Nat.iter n time_step 0 = top
  \/ (Z.of_nat n * (5033165 * 2 ^ 121) <= Nat.iter n time_step 0 < top).
Proof.
  destruct pow_split as [T [H P]].
  induction n as [|n [IH|IH]].
  - right. change (Nat.iter 0 time_step 0) with 0. lia.
  - left. change (Nat.iter (S n) time_step 0) with (time_step (Nat.iter n time_step 0)).
    rewrite IH. apply time_step_top.
  - change (Nat.iter (S n) time_step 0) with (time_step (Nat.iter n time_step 0)).
    destruct (time_step_grows (Nat.iter n time_step 0) ltac:(lia)) as [[_ B] G].
    destruct (G ltac:(lia)) as [E|E]; [left; exact E|].
    destruct (Z.eq_dec (time_step (Nat.iter n time_step 0)) top) as [E'|NE];
      [left; exact E'|right].
    rewrite Nat2Z.inj_succ. lia.
Qed.

Lemma stalled n : 55924052 <= Z.of_nat n -> Nat.iter n time_step 0 = top.
Proof.
  intros H. destruct (climb n) as [E|[L U]]; [exact E|exfalso].
  destruct pow_split as [T [_ P]].
  assert (K : 55924052 * (5033165 * 2 ^ 121) <= Z.of_nat n * (5033165 * 2 ^ 121))
    by (apply Z.mul_le_mono_nonneg_r; lia).
  lia.
Qed.

End TimeFacts.

(** X9: while [time_counter] is between 0 and 2^20 = 1048576, the
    statement [time_counter += 0.05f] never decreases it and never takes
    it above 2^20; below 2^20 it strictly increases it, and at 2^20 it
    leaves it unchanged, the increment being less than half the spacing
    of [float]s there. *)
Theorem X9_time_counter_stops_at_2_pow_20 (t : Z)
  (Ht : 0 <= t <= F32.of_int (2 ^ 20)) :
  t <= time_step t <= F32.of_int (2 ^ 20)
  /\ (time_step t = t <-> t = F32.of_int (2 ^ 20)).
Proof.
  rewrite TimeFacts.top_value in *.
  destruct (TimeFacts.time_step_grows t Ht) as [B G].
  destruct TimeFacts.pow_split as [_ [_ P]].
  split; [exact B|]. split.
  - intros E. destruct (Z.eq_dec t (2 ^ 169)) as [Y|N]; [exact Y|exfalso].
    destruct (G ltac:(lia)) as [K|K]; lia.
  - intros ->. apply TimeFacts.time_step_top.
Qed.

Lemma X9_time_counter_stops_at_2_pow_20_witness :
  0 <= F32.of_int 3 <= F32.of_int (2 ^ 20)
  /\ F32.of_int 3 <= time_step (F32.of_int 3) <= F32.of_int (2 ^ 20).
Proof.
  assert (H : 0 <= F32.of_int 3 <= F32.of_int (2 ^ 20)).
  { vm_compute. split; intros K; discriminate K. }
  split; [exact H|].
  exact (proj1 (X9_time_counter_stops_at_2_pow_20 (F32.of_int 3) H)).
Defined.

(** X10: [time_counter] starts at 0 and is advanced once per frame; from
    frame 55924052 on at the latest it is 2^20 and stays there, so the
    colours, the raster bar and the wave of the scroller no longer
    change. *)
Theorem X10_time_counter_is_eventually_constant (n : nat) :
  Nat.iter (Z.to_nat 55924052 + n) time_step (F32.of_int 0) = F32.of_int (2 ^ 20).
Proof.
  rewrite TimeFacts.top_value, F32Facts.f32_of_int_0.
  apply TimeFacts.stalled. lia.
Qed.

(** * The star array, star by star *)

Module ArrayFacts.
Import StarFacts StarMore RandFacts.

(** [update_star] reads two values of the generator and nothing else. *)
Lemma update_star_ext s g h :
  g 0%nat = h 0%nat -> g 1%nat = h 1%nat ->
  fst (update_star s g) = fst (update_star s h).
Proof.
  intros H0 H1. unfold update_star, rand.
  destruct (F32.leb (F32.sub (z s) (speed s)) (F32.of_int 0)); [|reflexivity].
  cbn [fst]. rewrite H0, H1. reflexivity.
Qed.

(** Star [i] after one call: the loop body on star [i], with the
    generator as the respawns before it in the array have left it. *)
Lemma update_stars_nth l : forall g i s,
  nth_error l i = Some s ->
  nth_error (fst (update_stars l g)) i
  = Some (fst (update_star s (fun j => g (2 * respawns (firstn i l) + j)%nat))).
Proof.
  induction l as [|s0 rest IH]; intros g i s H.
  - destruct i; discriminate H.
  - rewrite update_stars_cons. cbn [fst]. destruct i as [|i]; cbn [nth_error] in *.
    + apply Some_inj in H. subst s0. apply f_equal.
      apply update_star_ext; reflexivity.
    + rewrite (IH _ _ _ H). apply f_equal. cbn [firstn]. rewrite respawns_cons.
      apply update_star_ext; rewrite update_star_rand; apply f_equal;
        destruct (respawning s0); lia.
Qed.

(** The last of [S n] calls is a call on the state after [n] calls. *)
Lemma update_stars_n_last n : forall l g,
  update_stars_n (S n) l g
  = update_stars (fst (update_stars_n n l g)) (snd (update_stars_n n l g)).
Proof.
  induction n as [|n IH]; intros l g.
  - cbn [update_stars_n fst snd]. destruct (update_stars l g). reflexivity.
  - rewrite update_stars_n_S, IH. rewrite (update_stars_n_S n l g). reflexivity.
Qed.

(** The speed that [init_star] writes. *)
Lemma init_star_speed g s :
  option_map fst (init_star g) = Some s ->
  exists q,
    F32.div (F32.of_int (Z.of_N (g 3%nat) mod 100)) (F32.lit 200 1) = Some q
    /\ speed s = F32.add q (F32.lit 2 10).
Proof.
  unfold init_star, rand. cbv beta iota.
  destruct (F32.div _ _) as [q|]; cbv [bind option_map fst];
    intros H; [|discriminate H].
  apply Some_inj in H. subst s. exists q. split; reflexivity.
Qed.

End ArrayFacts.

(** C2: [init_stars] creates [NUM_STARS] stars, and the array holds
    [NUM_STARS] stars after any number of calls of [update_stars]; for
    every one of them and every number [n >= 1] of calls (written [S n]),
    the depth [z] of the star lies in (0, STAR_SPREAD] after the call.
    Star by star: the star at index [i] after call [S n] comes from the
    star at index [i] before it; either it keeps [x], [y], [speed] and
    the positive result of [z - speed], or that result is [<= 0] and the
    star is written anew in that same call: [z = STAR_SPREAD], and [x],
    [y] from the next two values of [rand()] that the respawns earlier in
    the array have not taken. *)
Theorem C2_depth_stays_in_range (g : rng) :
  exists stars0 g0,
    init_stars g = Some (stars0, g0)
    /\ length stars0 = NUM_STARS
    /\ (forall n, Forall z_in_range (fst (update_stars_n (S n) stars0 g0)))
    /\ (forall s g1,
          (F32.sub (z s) (speed s) <= 0
           /\ update_star s g1 = (respawn s g1, fun i => g1 (S (S i))))
          \/ (0 < F32.sub (z s) (speed s)
              /\ update_star s g1 =
                   ({| x := x s; y := y s;
                       z := F32.sub (z s) (speed s); speed := speed s |}, g1)))
    /\ (forall n, length (fst (update_stars_n n stars0 g0)) = NUM_STARS)
    /\ (forall n i s,
          let before := update_stars_n n stars0 g0 in
          let after := update_stars_n (S n) stars0 g0 in
          nth_error (fst before) i = Some s ->
          exists s',
            nth_error (fst after) i = Some s'
            /\ 0 < z s' <= F32.of_int STAR_SPREAD
            /\ ((0 < F32.sub (z s) (speed s)
                 /\ s' = {| x := x s; y := y s;
                            z := F32.sub (z s) (speed s); speed := speed s |})
                \/ (F32.sub (z s) (speed s) <= 0
                    /\ s' = respawn s
                              (fun j => snd before
                                 (2 * respawns (firstn i (fst before)) + j)%nat)))).
Proof.
  destruct (StarFacts.init_stars_total g) as [stars0 [g0 E]].
  pose proof (StarFacts.init_stars_length _ _ _ E) as Len.
  pose proof (StarFacts.init_stars_inv _ _ _ E) as Inv.
  exists stars0, g0. split; [exact E|]. split; [exact Len|].
  split; [|split; [|split]].
  - intros n. apply StarFacts.update_stars_n_range. exact Inv.
  - apply StarFacts.update_star_cases.
  - intros n. rewrite StarMore.update_stars_n_length. exact Len.
  - intros n i s before after H.
    pose proof (StarFacts.update_stars_n_inv n stars0 g0 Inv) as In.
    fold before in In.
    assert (Is : star_inv s).
    { apply (proj1 (Forall_forall _ _) In). eapply nth_error_In. exact H. }
    unfold after. rewrite ArrayFacts.update_stars_n_last. fold before.
    rewrite (ArrayFacts.update_stars_nth _ _ _ _ H).
    eexists. split; [reflexivity|].
    split; [apply StarFacts.update_star_range; exact Is|].
    destruct (StarFacts.update_star_cases s
                (fun j => snd before (2 * respawns (firstn i (fst before)) + j)%nat))
      as [[C ->]|[C ->]]; cbn [fst]; [right|left]; split; first [exact C|reflexivity].
Qed.

(** C10: [init_stars] creates [NUM_STARS] stars and gives the star at
    index [k] the speed [(rand() % 100) / 200.0f + 0.2f] from the value of
    [rand()] at position [4k + 3], a value in [0.2, 0.695]; no call of
    [update_stars] changes a speed or the number of stars, so after any
    number [n] of calls the star at index [k] has the speed of the
    initialisation, which is positive; and in the next call the
    subtraction [z - speed] is strictly below [z] for every star, which
    then keeps that depth or is respawned. *)
Theorem C10_speed_fixed_and_positive (g : rng) :
  exists stars0 g0,
    init_stars g = Some (stars0, g0)
    /\ Forall speed_in_range stars0
    /\ (forall n,
         let now := update_stars_n n stars0 g0 in
         map speed (fst now) = map speed stars0
         /\ Forall (fun s => 0 < speed s) (fst now)
         /\ Forall2 advanced (fst now) (fst (update_stars (fst now) (snd now))))
    /\ length stars0 = NUM_STARS
    /\ (forall n, length (fst (update_stars_n n stars0 g0)) = NUM_STARS)
    /\ (forall k s,
          nth_error stars0 k = Some s ->
          exists q,
            F32.div (F32.of_int (Z.of_N (g (4 * k + 3)%nat) mod 100)) (F32.lit 200 1)
            = Some q
            /\ speed s = F32.add q (F32.lit 2 10))
    /\ (forall n k s,
          nth_error stars0 k = Some s ->
          exists s',
            nth_error (fst (update_stars_n n stars0 g0)) k = Some s'
            /\ speed s' = speed s).
Proof.
  destruct (StarFacts.init_stars_total g) as [stars0 [g0 E]].
  pose proof (StarFacts.init_stars_inv _ _ _ E) as I.
  pose proof (StarFacts.init_stars_length _ _ _ E) as Len.
  exists stars0, g0. split; [exact E|]. split; [|split; [|split; [|split; [|split]]]].
  - eapply Forall_impl; [|exact I]. intros s [_ H]. exact H.
  - intros n now.
    pose proof (StarFacts.update_stars_n_inv n stars0 g0 I) as In.
    fold now in In.
    split; [apply StarFacts.update_stars_n_speed|]. split.
    + eapply Forall_impl; [|exact In].
      intros s [_ H]. now apply StarFacts.speed_pos.
    + apply (StarFacts.update_stars_Forall2 star_inv advanced); [|exact In].
      intros s g1. apply StarFacts.update_star_advanced.
  - exact Len.
  - intros n. rewrite StarMore.update_stars_n_length. exact Len.
  - intros k s H.
    destruct (RandFacts.init_stars_rand g stars0 g0 E) as [_ N].
    exact (ArrayFacts.init_star_speed _ s (N k s H)).
  - intros n k s H.
    destruct (DepthFacts.Forall2_nth_error _ _ _
                (DepthFacts.update_stars_n_depth n stars0 g0) k s H) as [s' [Hn [_ Hs]]].
    exists s'. split; [exact Hn|exact Hs].
Qed.

(** * The loop, the clock, the colours, and start-up and shutdown *)

Module LoopFacts.
Import MainFacts StarFacts.

Lemma poll_events_spec pending r :
  poll_events pending r = if has_quit pending then 0 else r.
Proof.
  revert r. induction pending as [|e rest IH]; intros r; [reflexivity|].
  cbn [poll_events has_quit existsb]. fold (has_quit rest).
  destruct (SDL.type e =? SDL.QUIT); cbn [orb].
  - apply poll_events_stopped.
  - apply IH.
Qed.


Lemma tick_no_quit textW p a :
  has_quit p = false ->
  stars (tick textW p a) = fst (update_stars (stars a) (rand_state a))
  /\ rand_state (tick textW p a) = snd (update_stars (stars a) (rand_state a))
  /\ scrollX (tick textW p a) = scroll_step textW (scrollX a)
  /\ time_counter (tick textW p a) = time_step (time_counter a)
  /\ is_running (tick textW p a) = is_running a.
Proof.
  intros Q. destruct (tick_fields textW p a) as [E1 [E2 [E3 E4]]].
  rewrite poll_events_spec, Q in E4.
  split; [now rewrite <- E1|]. split; [now rewrite <- E1|]. tauto.
Qed.

Lemma main_loop_no_quit textW input : forall a,
  is_running a <> 0 -> Forall (fun p => has_quit p = false) input ->
  let a' := main_loop textW input a in
  stars a' = fst (update_stars_n (length input) (stars a) (rand_state a))
  /\ rand_state a' = snd (update_stars_n (length input) (stars a) (rand_state a))
  /\ scrollX a' = Nat.iter (length input) (scroll_step textW) (scrollX a)
  /\ time_counter a' = Nat.iter (length input) time_step (time_counter a)
  /\ is_running a' = is_running a.
Proof.
  induction input as [|p rest IH]; intros a R F; cbv zeta.
  - cbn [main_loop length update_stars_n fst snd]. repeat split.
  - inversion F as [|p0 l0 Q F']; subst.
    rewrite (main_loop_running _ _ _ _ R).
    destruct (tick_no_quit textW p a Q) as [E1 [E2 [E3 [E4 E5]]]].
    destruct (IH (tick textW p a) ltac:(rewrite E5; exact R) F') as [I1 [I2 [I3 [I4 I5]]]].
    cbn [length]. rewrite update_stars_n_S, !Nat.iter_succ_r.
    rewrite I1, I2, I3, I4, I5, E1, E2, E3, E4, E5. repeat split.
Qed.

End LoopFacts.

(** X11: the event loop drains every pending event and looks at nothing
    but whether one of them is [SDL_QUIT]: an iteration with any pending
    events is the iteration with a single quit event if one of them is a
    quit, and the iteration without events otherwise. *)
Theorem X11_only_quit_events_matter (textW : Z) (pending : list SDL.Event) (a : App) :
  tick textW pending a
  = tick textW (if has_quit pending then [quit_event] else []) a.
Proof.
  unfold tick. rewrite !LoopFacts.poll_events_spec.
  destruct (has_quit pending); reflexivity.
Qed.


(** X13: while no quit arrives, [n] iterations of the loop are [n] calls
    of [update_stars] on the stars, [n] scroll steps on [scrollX] and [n]
    additions of [0.05f] to [time_counter], each independent of the
    others, and [is_running] is unchanged. *)
Theorem X13_loop_without_quit (textW : Z) (input : list (list SDL.Event)) (a : App)
  (Hrun : is_running a <> 0)
  (Hquiet : Forall (fun p => has_quit p = false) input) :
  let n := length input in
  let a' := main_loop textW input a in
  (stars a', rand_state a') = update_stars_n n (stars a) (rand_state a)
  /\ scrollX a' = Nat.iter n (scroll_step textW) (scrollX a)
  /\ time_counter a' = Nat.iter n time_step (time_counter a)
  /\ is_running a' = is_running a.
Proof.
  cbv zeta.
  destruct (LoopFacts.main_loop_no_quit textW input a Hrun Hquiet)
    as [E1 [E2 [E3 [E4 E5]]]].
  split; [|tauto].
  rewrite E1, E2. symmetry. apply surjective_pairing.
Qed.

Lemma X13_loop_without_quit_witness :
  let input := [[]; [{| SDL.type := 768 |}]] in
  is_running sample_app <> 0
  /\ Forall (fun p => has_quit p = false) input
  /\ time_counter (main_loop 400 input sample_app)
     = Nat.iter 2 time_step (time_counter sample_app).
Proof.
  cbv zeta.
  assert (R : is_running sample_app <> 0) by (intros H; discriminate H).
  assert (F : Forall (fun p => has_quit p = false) [[]; [{| SDL.type := 768 |}]])
    by (repeat constructor).
  split; [exact R|]. split; [exact F|].
  exact (proj1 (proj2 (proj2 (X13_loop_without_quit 400 _ sample_app R F)))).
Defined.

Module TimerFacts.

Lemma Uint32_small n : 0 <= n < 2 ^ 32 -> Uint32 n = n.
Proof. intros H. unfold Uint32. apply Z.mod_small. exact H. Qed.

Lemma Uint32_sub a b : Uint32 (Uint32 a - Uint32 b) = Uint32 (a - b).
Proof. unfold Uint32. symmetry. apply Zminus_mod. Qed.

(** The limiter between two readings [r0 <= r1] of the clock less than
    [2^32] ms apart. *)
Lemma limit_frame_clock r0 r1 :
  0 <= r1 - r0 < 2 ^ 32 ->
  limit_frame (Uint32 r1) (Uint32 r0)
  = (if r1 - r0 <? 16 then Some (16 - (r1 - r0)) else None, Uint32 r1).
Proof.
  intros H. unfold limit_frame. rewrite Uint32_sub, (Uint32_small _ H).
  destruct (Z.ltb_spec (r1 - r0) 16) as [Lt|Ge]; [|reflexivity].
  rewrite Uint32_small; [reflexivity|].
  change (2 ^ 32) with 4294967296. lia.
Qed.

Lemma frame_time_clock work over t r0 :
  last_tick t = Uint32 r0 -> 0 <= clock t + work - r0 < 2 ^ 32 ->
  frame_time work over t
  = {| clock := clock t + work
                + (if clock t + work - r0 <? 16
                   then 16 - (clock t + work - r0) + over else 0);
       last_tick := Uint32 (clock t + work) |}.
Proof.
  intros L H. unfold frame_time. rewrite L, (limit_frame_clock _ _ H).
  destruct (clock t + work - r0 <? 16); f_equal; lia.
Qed.

End TimerFacts.

(** X14: the frame limiter is correct across the wrap-around of the
    32-bit tick counter: for two readings of the clock less than 2^32 ms
    apart, it calls [SDL_Delay] exactly when less than 16 ms have
    elapsed, with the remainder to 16 ms (between 1 and 16), and keeps
    [current_tick] as the new [last_tick]. *)
Theorem X14_limiter_survives_tick_wraparound (r0 r1 : Z)
  (H : 0 <= r1 - r0 < 2 ^ 32) :
  limit_frame (Uint32 r1) (Uint32 r0)
  = (if r1 - r0 <? 16 then Some (16 - (r1 - r0)) else None, Uint32 r1)
  /\ forall ms, fst (limit_frame (Uint32 r1) (Uint32 r0)) = Some ms ->
                1 <= ms <= 16 /\ r1 - r0 + ms = 16.
Proof.
  rewrite (TimerFacts.limit_frame_clock r0 r1 H). split; [reflexivity|].
  intros ms. cbn [fst]. destruct (Z.ltb_spec (r1 - r0) 16) as [Lt|Ge];
    intros E; [|discriminate E].
  apply Some_inj in E. lia.
Qed.

Lemma X14_limiter_survives_tick_wraparound_witness :
  0 <= (2 ^ 32 + 3) - (2 ^ 32 - 2) < 2 ^ 32
  /\ limit_frame 3 (2 ^ 32 - 2) = (Some 11, 3).
Proof.
  assert (H : 0 <= (2 ^ 32 + 3) - (2 ^ 32 - 2) < 2 ^ 32) by (vm_compute; split; [intros K; discriminate K|reflexivity]).
  split; [exact H|].
  exact (proj1 (X14_limiter_survives_tick_wraparound (2 ^ 32 - 2) (2 ^ 32 + 3) H)).
Defined.

(** X15: [last_tick] is the reading taken before the delay, so the delay
    counts as part of the next frame.  With [r0], [r1], [r2] three
    successive readings of the clock: two frames together take at least
    16 ms, but the second one alone takes only [16 - (r1 - r0)] ms when
    the first was shorter than 16 ms and the work is instantaneous: the
    limiter bounds the time of two frames, not of each frame. *)
Theorem X15_limiter_bounds_two_frames (t : Timer) (r0 w1 o1 w2 : Z)
  (Hlast : last_tick t = Uint32 r0) (Hr0 : r0 <= clock t)
  (Hw1 : 0 <= w1) (Ho1 : 0 <= o1) (Hw2 : 0 <= w2)
  (Hlong : clock t + w1 - r0 < 2 ^ 32) :
  let r1 := clock t + w1 in
  let t1 := frame_time w1 o1 t in
  let r2 := clock t1 + w2 in
  last_tick t1 = Uint32 r1
  /\ r1 <= r2
  /\ 16 <= r2 - r0
  /\ (o1 = 0 -> w2 = 0 -> r1 - r0 < 16 -> r2 - r1 = 16 - (r1 - r0)).
Proof.
  cbv zeta. rewrite (TimerFacts.frame_time_clock w1 o1 t r0 Hlast ltac:(lia)).
  cbn [clock last_tick].
  destruct (Z.ltb_spec (clock t + w1 - r0) 16) as [Lt|Ge];
    (split; [reflexivity|]); lia.
Qed.

Lemma X15_limiter_bounds_two_frames_witness :
  let t := {| clock := 100; last_tick := 100 |} in
  let t1 := frame_time 15 0 t in
  clock t1 + 0 - (clock t + 15) = 16 - (clock t + 15 - 100).
Proof.
  cbv zeta.
  refine (proj2 (proj2 (proj2
    (X15_limiter_bounds_two_frames {| clock := 100; last_tick := 100 |}
       100 15 0 0 eq_refl _ _ _ _ _))) eq_refl eq_refl _);
    cbn [clock]; lia.
Defined.

Module ScrollerFacts.
Import IEEE IEEEFacts F64Facts.

#[local] Abbreviation one := F64.one.



Lemma f64_mul_whole n : Z.abs n < 2 ^ 53 -> F64.mul n (one * one) = n * one.
Proof.
  intros H. unfold F64.mul. rewrite Z.mul_assoc.
  apply (round_frac_exact _ f64_prec_pos); [|apply f64_one_pos].
  unfold F64.one. apply (formatb_small _ f64_prec_pos); [lia|exact H].
Qed.



End ScrollerFacts.

Section Colours.

Variable c_sin : Z -> Z.
Hypothesis c_sin_range : forall v, - F64.one <= c_sin v <= F64.one.



End Colours.



Module LifeFacts.
Import MainFacts.

Lemma main_init_total g : exists a0, main_init g = Some a0 /\ is_running a0 = 1.
Proof.
  destruct (StarFacts.init_stars_total g) as [l [g' E]].
  unfold main_init. rewrite E. cbv [bind]. eexists. split; reflexivity.
Qed.

(** The loop has stopped exactly when some iteration saw a quit. *)
Lemma quit_stops textW input : forall a,
  is_running a <> 0 ->
  (is_running (main_loop textW input a) =? 0) = existsb has_quit input.
Proof.
  induction input as [|p rest IH]; intros a R.
  - cbn [main_loop existsb]. apply Z.eqb_neq. exact R.
  - rewrite (main_loop_running _ _ _ _ R). cbn [existsb].
    destruct (tick_fields textW p a) as [_ [_ [_ E]]].
    rewrite LoopFacts.poll_events_spec in E.
    destruct (has_quit p) eqn:Q; cbn [orb].
    + rewrite (main_loop_stopped _ _ _ E), E. reflexivity.
    + apply IH. rewrite E. exact R.
Qed.

Ltac run_main :=
  cbn [main init_sdl init_font init_audio create_text_texture cleanup
       and_then ret call get put set_window set_renderer set_font set_music
       negb Z.eqb Pos.eqb fst snd app no_handles
       window renderer font music
       sdl_init_ok window_ok renderer_ok ttf_init_ok font_ok audio_ok music_ok
       surface_ok texture_ok surface_w surface_h
       init_ok text_ok andb orb].

(** [main] from the globals all [NULL], case by case. *)
Lemma main_trace p g input a0 :
  main_init g = Some a0 ->
  main p g input no_handles =
    let held w r f m := {| window := w; renderer := r; font := f; music := m |} in
    let sdl := [SDL_Init; SDL_CreateWindow; SDL_CreateRenderer] in
    let ttf := [TTF_Init; TTF_OpenFont] in
    let mix := [Mix_OpenAudio; Mix_LoadMUS] in
    let down := [Mix_FreeMusic; TTF_CloseFont; SDL_DestroyRenderer; SDL_DestroyWindow;
                 Mix_Quit; TTF_Quit; SDL_Quit] in
    if negb (sdl_init_ok p) then (Exit 1, no_handles, [SDL_Init; printf]) else
    if negb (window_ok p) then
      (Exit 1, no_handles, [SDL_Init; SDL_CreateWindow; printf]) else
    if negb (renderer_ok p) then
      (Exit 1, held true false false false, sdl ++ [printf]) else
    if negb (ttf_init_ok p) then
      (Exit 1, held true true false false, sdl ++ [TTF_Init; printf]) else
    if negb (font_ok p) then
      (Exit 1, held true true false false,
       sdl ++ ttf ++ [printf; printf; SDL_Delay 5000]) else
    if negb (audio_ok p) then
      (Exit 1, held true true true false, sdl ++ ttf ++ [Mix_OpenAudio; printf]) else
    if negb (music_ok p) then
      (Exit 1, held true true true false,
       sdl ++ ttf ++ mix ++ [printf; printf; SDL_Delay 5000]) else
    if negb (surface_ok p) then
      (Exit 1, no_handles,
       sdl ++ ttf ++ mix ++ [Mix_PlayMusic (- 1); TTF_RenderText_Blended; printf] ++ down)
    else
    if negb (texture_ok p) then
      (Exit 1, no_handles,
       sdl ++ ttf ++ mix
       ++ [Mix_PlayMusic (- 1); TTF_RenderText_Blended; SDL_CreateTextureFromSurface;
           printf; SDL_FreeSurface] ++ down)
    else
    if existsb has_quit input then
      (Exit 0, no_handles,
       sdl ++ ttf ++ mix
       ++ [Mix_PlayMusic (- 1); TTF_RenderText_Blended; SDL_CreateTextureFromSurface;
           SDL_FreeSurface; SDL_DestroyTexture] ++ down)
    else
      (Looping (main_loop (surface_w p) input a0), held true true true true,
       sdl ++ ttf ++ mix
       ++ [Mix_PlayMusic (- 1); TTF_RenderText_Blended; SDL_CreateTextureFromSurface;
           SDL_FreeSurface]).
Proof.
  intros E.
  assert (R : is_running a0 <> 0).
  { destruct (main_init_total g) as [a1 [E1 R1]].
    rewrite E in E1. apply Some_inj in E1. subst a1.
    rewrite R1. intros H; discriminate H. }
  pose proof (quit_stops (surface_w p) input a0 R) as Q.
  destruct p as [i1 i2 i3 i4 i5 i6 i7 s1 s2 w h]. cbn [surface_w] in Q. cbv zeta.
  run_main.
  destruct i1; run_main; [|reflexivity].
  destruct i2; run_main; [|reflexivity].
  destruct i3; run_main; [|reflexivity].
  destruct i4; run_main; [|reflexivity].
  destruct i5; run_main; [|reflexivity].
  destruct i6; run_main; [|reflexivity].
  destruct i7; run_main; [|reflexivity].
  rewrite E.
  destruct s1; run_main; [|reflexivity].
  destruct s2; run_main; [|reflexivity].
  rewrite Q. destruct (existsb has_quit input); reflexivity.
Qed.

End LifeFacts.

(** X18: [main] returns 1 exactly when one of the nine calls that can
    fail does fail; when all succeed it returns 0 once an iteration of
    the loop has seen a quit event, and otherwise it is still in the
    loop, with the width of the rendered text as [textW]. *)
Theorem X18_exit_status (p : Platform) (g : rng) (input : list (list SDL.Event)) :
  exists a0,
    main_init g = Some a0
    /\ fst (fst (main p g input no_handles))
       = if negb (init_ok p && text_ok p) then Exit 1
         else if existsb has_quit input then Exit 0
         else Looping (main_loop (surface_w p) input a0).
Proof.
  destruct (LifeFacts.main_init_total g) as [a0 [E R]].
  exists a0. split; [exact E|].
  rewrite (LifeFacts.main_trace p g input a0 E). cbv zeta.
  unfold init_ok, text_ok.
  destruct (sdl_init_ok p); [|reflexivity]. destruct (window_ok p); [|reflexivity].
  destruct (renderer_ok p); [|reflexivity]. destruct (ttf_init_ok p); [|reflexivity].
  destruct (font_ok p); [|reflexivity]. destruct (audio_ok p); [|reflexivity].
  destruct (music_ok p); [|reflexivity]. destruct (surface_ok p); [|reflexivity].
  destruct (texture_ok p); [|reflexivity].
  destruct (existsb has_quit input); reflexivity.
Qed.

(** X19: when [init_sdl], [init_font] or [init_audio] fails, [main]
    returns 1 at once, without calling [cleanup]: no call that releases
    anything is made, [SDL_Quit] included, and the window, the renderer
    and the font that were created before the failure are still held
    when [main] returns. *)
Theorem X19_early_failure_releases_nothing
  (p : Platform) (g : rng) (input : list (list SDL.Event))
  (Hfail : init_ok p = false) :
  let r := main p g input no_handles in
  fst (fst r) = Exit 1
  /\ existsb releases (snd r) = false
  /\ window (snd (fst r)) = sdl_init_ok p && window_ok p
  /\ renderer (snd (fst r)) = sdl_init_ok p && window_ok p && renderer_ok p
  /\ font (snd (fst r))
     = sdl_init_ok p && window_ok p && renderer_ok p && ttf_init_ok p && font_ok p
  /\ music (snd (fst r)) = false.
Proof.
  destruct (LifeFacts.main_init_total g) as [a0 [E _]].
  cbv zeta. rewrite (LifeFacts.main_trace p g input a0 E). cbv zeta.
  unfold init_ok in Hfail.
  destruct (sdl_init_ok p); [|repeat split].
  destruct (window_ok p); [|repeat split].
  destruct (renderer_ok p); [|repeat split].
  destruct (ttf_init_ok p); [|repeat split].
  destruct (font_ok p); [|repeat split].
  destruct (audio_ok p); [|repeat split].
  destruct (music_ok p); [|repeat split].
  discriminate Hfail.
Qed.

Lemma X19_early_failure_releases_nothing_witness :
  init_ok no_font_platform = false
  /\ existsb releases (snd (main no_font_platform lcg [] no_handles)) = false
  /\ window (snd (fst (main no_font_platform lcg [] no_handles))) = true.
Proof.
  split; [reflexivity|].
  pose proof (X19_early_failure_releases_nothing no_font_platform lcg [] eq_refl) as H.
  cbv zeta in H. split; [exact (proj1 (proj2 H))|exact (proj1 (proj2 (proj2 H)))].
Defined.



(** X21: when the three initialisations succeed but the text cannot be
    rendered or made into a texture, [main] calls [cleanup] and returns
    1: the music has been started, the surface is freed exactly when it
    was created, no texture is destroyed (there is none), the trace ends
    with the seven calls of [cleanup], and all four handles are
    [NULL]. *)
Theorem X21_text_failure_cleans_up
  (p : Platform) (g : rng) (input : list (list SDL.Event))
  (Hinit : init_ok p = true) (Htext : text_ok p = false) :
  exists before,
    main p g input no_handles = (Exit 1, no_handles, before ++ shutdown)
    /\ existsb (fun c => existsb (Call_eqb c) shutdown) before = false
    /\ calls (Mix_PlayMusic (- 1)) before = 1%nat
    /\ calls SDL_FreeSurface before = (if surface_ok p then 1 else 0)%nat
    /\ calls SDL_DestroyTexture before = 0%nat.
Proof.
  destruct (LifeFacts.main_init_total g) as [a0 [E _]].
  rewrite (LifeFacts.main_trace p g input a0 E). cbv zeta.
  unfold init_ok in Hinit. unfold text_ok in Htext.
  destruct (sdl_init_ok p); [|discriminate Hinit].
  destruct (window_ok p); [|discriminate Hinit].
  destruct (renderer_ok p); [|discriminate Hinit].
  destruct (ttf_init_ok p); [|discriminate Hinit].
  destruct (font_ok p); [|discriminate Hinit].
  destruct (audio_ok p); [|discriminate Hinit].
  destruct (music_ok p); [|discriminate Hinit].
  destruct (surface_ok p).
  - destruct (texture_ok p); [discriminate Htext|].
    exists [SDL_Init; SDL_CreateWindow; SDL_CreateRenderer; TTF_Init; TTF_OpenFont;
            Mix_OpenAudio; Mix_LoadMUS; Mix_PlayMusic (- 1); TTF_RenderText_Blended;
            SDL_CreateTextureFromSurface; printf; SDL_FreeSurface].
    repeat split.
  - exists [SDL_Init; SDL_CreateWindow; SDL_CreateRenderer; TTF_Init; TTF_OpenFont;
            Mix_OpenAudio; Mix_LoadMUS; Mix_PlayMusic (- 1); TTF_RenderText_Blended;
            printf].
    repeat split.
Qed.

Lemma X21_text_failure_cleans_up_witness :
  exists before,
    main no_texture_platform lcg [] no_handles
    = (Exit 1, no_handles, before ++ shutdown).
Proof.
  destruct (X21_text_failure_cleans_up no_texture_platform lcg [] eq_refl eq_refl)
    as [before [H _]].
  exists before. exact H.
Defined.

(** X22: [cleanup] releases each handle that is not [NULL] exactly once
    and none that is, leaves all four [NULL], and quits the three
    libraries last; a second call right after releases nothing and only
    quits the libraries again. *)
Theorem X22_cleanup_is_safe_to_repeat (gl : Globals) :
  let r1 := cleanup gl in
  let r2 := cleanup (snd (fst r1)) in
  snd (fst r1) = no_handles
  /\ calls Mix_FreeMusic (snd r1) = (if music gl then 1 else 0)%nat
  /\ calls TTF_CloseFont (snd r1) = (if font gl then 1 else 0)%nat
  /\ calls SDL_DestroyRenderer (snd r1) = (if renderer gl then 1 else 0)%nat
  /\ calls SDL_DestroyWindow (snd r1) = (if window gl then 1 else 0)%nat
  /\ (exists before, snd r1 = before ++ [Mix_Quit; TTF_Quit; SDL_Quit])
  /\ r2 = (tt, no_handles, [Mix_Quit; TTF_Quit; SDL_Quit]).
Proof.
  cbv zeta.
  repeat (split; [destruct gl as [[] [] [] []]; reflexivity|]).
  split; [|destruct gl as [[] [] [] []]; reflexivity].
  exists (firstn (length (snd (cleanup gl)) - 3) (snd (cleanup gl))).
  destruct gl as [[] [] [] []]; reflexivity.
Qed.


(** X24: [create_text_texture] leaves the globals as they are, returns a
    texture exactly when both the surface and the texture can be made,
    frees the surface exactly when it was created, also when the texture
    could not be made, and writes the size of the surface to [*w] and
    [*h] exactly when the surface was created. *)
Theorem X24_text_surface_is_always_freed (p : Platform) (gl : Globals) :
  let r := create_text_texture p gl in
  snd (fst r) = gl
  /\ fst (fst (fst r)) = text_ok p
  /\ snd (fst (fst r))
     = (if surface_ok p then Some (surface_w p, surface_h p) else None)
  /\ calls TTF_RenderText_Blended (snd r) = 1%nat
  /\ calls SDL_CreateTextureFromSurface (snd r) = (if surface_ok p then 1 else 0)%nat
  /\ calls SDL_FreeSurface (snd r) = (if surface_ok p then 1 else 0)%nat.
Proof.
  cbv zeta. unfold create_text_texture, text_ok.
  destruct (surface_ok p); [destruct (texture_ok p)|]; repeat split.
Qed.
